(** * XCBWrangler: the wrangler generator [auto/auto.py]

    A shallow embedding of the generator script and the properties of its
    pipeline: type normalisation, declaration merging, the entity model
    built from libclang cursors, the code synthesiser, the wrangler
    aggregator and the template substitution engine.

    Python [str] values are modelled as [string] (sequences of 8-bit
    characters); the built-in string methods the script calls are defined in
    [PyStr] with the behaviour of CPython on ASCII text. *)

From Stdlib Require Import List ZArith Lia Bool DecimalString DecimalPos DecimalZ.
From Stdlib Require Import Ascii String.
Import ListNotations.
Open Scope string_scope.

(** ** Python string methods used by the script *)

Module PyStr.

(** [str.isspace] on one character, restricted to the ASCII range:
    TAB, LF, VT, FF, CR, the separators FS, GS, RS, US and the space
    (the white space of a Python 3 [str]; a Python 2 [str] lacks the four
    separators). *)
Definition isspace (c : ascii) : bool :=
  let n := nat_of_ascii c in
  ((9 <=? n)%nat && (n <=? 13)%nat) || ((28 <=? n)%nat && (n <=? 32)%nat).

Fixpoint lstrip (s : string) : string :=
  match s with
  | EmptyString => EmptyString
  | String c s' => if isspace c then lstrip s' else s
  end.

Fixpoint rstrip (s : string) : string :=
  match s with
  | EmptyString => EmptyString
  | String c s' =>
      match rstrip s' with
      | EmptyString => if isspace c then EmptyString else String c EmptyString
      | r => String c r
      end
  end.

(** [s.strip()] *)
Definition strip (s : string) : string := rstrip (lstrip s).

(** [s.startswith(p)] *)
Definition startswith (p s : string) : bool := prefix p s.

(** [s.endswith(suf)] *)
Fixpoint endswith (suf s : string) : bool :=
  if String.eqb s suf then true
  else match s with
       | EmptyString => false
       | String _ s' => endswith suf s'
       end.

Fixpoint drop (n : nat) (s : string) : string :=
  match n, s with
  | O, _ => s
  | S _, EmptyString => EmptyString
  | S k, String _ s' => drop k s'
  end.

Fixpoint take (n : nat) (s : string) : string :=
  match n, s with
  | O, _ => EmptyString
  | S _, EmptyString => EmptyString
  | S k, String c s' => String c (take k s')
  end.

(** Slice bounds as Python resolves them: a negative index counts from the
    end, and every index is clamped to [0, len]. *)
Definition slice_index (i : Z) (len : nat) : nat :=
  if (i <? 0)%Z then Z.to_nat (Z.max 0 (i + Z.of_nat len))
  else Nat.min (Z.to_nat i) len.

(** [s[i:]] *)
Definition slice_from (i : Z) (s : string) : string :=
  drop (slice_index i (length s)) s.

(** [s[:i]] *)
Definition slice_to (i : Z) (s : string) : string :=
  take (slice_index i (length s)) s.

(** [s.replace(old, new)]: left to right, occurrences do not overlap.
    [skip] counts the characters of a matched occurrence still to be
    passed over.  With an empty [old], Python inserts [new] before every
    character and at the end. *)
Fixpoint replace_from (old new : string) (skip : nat) (s : string) : string :=
  match s with
  | EmptyString => EmptyString
  | String c s' =>
      match skip with
      | S k => replace_from old new k s'
      | O =>
          if prefix old s
          then new ++ replace_from old new (length old - 1) s'
          else String c (replace_from old new 0 s')
      end
  end.

Fixpoint intersperse (new s : string) : string :=
  match s with
  | EmptyString => new
  | String c s' => new ++ String c (intersperse new s')
  end.

Definition replace (old new s : string) : string :=
  match old with
  | EmptyString => intersperse new s
  | _ => replace_from old new 0 s
  end.

(** [s.rfind(sub)]: the highest index where [sub] occurs, or -1. *)
Fixpoint rfind_nat (sub s : string) : option nat :=
  match s with
  | EmptyString => if String.eqb sub EmptyString then Some O else None
  | String _ s' =>
      match rfind_nat sub s' with
      | Some i => Some (S i)
      | None => if prefix sub s then Some O else None
      end
  end.

Definition rfind (sub s : string) : Z :=
  match rfind_nat sub s with
  | Some i => Z.of_nat i
  | None => (-1)%Z
  end.

(** [sep.join(l)] *)
Definition join (sep : string) (l : list string) : string := concat sep l.

Definition upper_char (c : ascii) : ascii :=
  let n := nat_of_ascii c in
  if ((97 <=? n)%nat && (n <=? 122)%nat) then ascii_of_nat (n - 32) else c.

(** [s.upper()] *)
Fixpoint upper (s : string) : string :=
  match s with
  | EmptyString => EmptyString
  | String c s' => String (upper_char c) (upper s')
  end.

(** ["{}".format(n)] for an integer. *)
Definition format_int (n : Z) : string := NilZero.string_of_int (Z.to_int n).

(** The bytes of a file as a Python 3 text-mode file object hands them
    over (universal newlines): a CR LF pair and a CR alone both read as
    LF. *)
Fixpoint translate_newlines (s : string) : string :=
  match s with
  | EmptyString => EmptyString
  | String c s' =>
      if Ascii.eqb c "013"%char
      then match s' with
           | String c' _ =>
               if Ascii.eqb c' "010"%char
               then translate_newlines s'
               else String "010"%char (translate_newlines s')
           | EmptyString => String "010"%char EmptyString
           end
      else String c (translate_newlines s')
  end.

(** A translated text cut after every LF: every line keeps its LF, the
    last line may lack one. *)
Fixpoint readlines_from (cur : string) (s : string) : list string :=
  match s with
  | EmptyString =>
      match cur with EmptyString => [] | _ => [cur] end
  | String c s' =>
      if Ascii.eqb c "010"%char
      then (cur ++ String c EmptyString) :: readlines_from EmptyString s'
      else readlines_from (cur ++ String c EmptyString) s'
  end.

(** [f.readlines()] on a text-mode file with the content [s]: a line ends
    at LF, at CR LF and at a CR alone, and is handed over with LF as its
    end. *)
Definition readlines (s : string) : list string :=
  readlines_from EmptyString (translate_newlines s).

(** The content decodes: every byte is below 128.  The script opens its
    files with the codec of the locale; on ASCII text, which is what this
    model covers, every such codec gives the bytes back, and a byte from 128
    on is taken as undecodable, as the ASCII codec has it. *)
Fixpoint is_ascii (s : string) : bool :=
  match s with
  | EmptyString => true
  | String c s' => (nat_of_ascii c <? 128)%nat && is_ascii s'
  end.

End PyStr.

Import PyStr.

(** ** Parsing: the type and declaration formatter *)

(** [formatAndCleanType(type)] *)
Definition formatAndCleanType (type : string) : string :=
  let type := replace " *" "* " type in
  let type := strip type in
  if startswith "struct " type && negb (endswith "*" type)
  then slice_from 7 type
  else type.

(** The [while] loop of [mergeTypeAndVariable]; [None] when the iteration
    budget is used up before the loop condition turns false. *)
Fixpoint strip_dimensions (fuel : nat) (type dimension : string)
  : option (string * string) :=
  if endswith "]" type then
    match fuel with
    | O => None
    | S fuel' =>
        let index := rfind "[" type in
        strip_dimensions fuel' (slice_to index type)
                         (slice_from index type ++ dimension)
    end
  else Some (type, dimension).

(** [mergeTypeAndVariable(type, variable)]; every pass of the loop shortens
    [type], so its length bounds the number of passes
    (see [strip_dimensions_total]). *)
Definition mergeTypeAndVariable (type variable : string) : string :=
  let type := strip type in
  match strip_dimensions (length type) type "" with
  | Some (type, dimension) => strip type ++ " " ++ variable ++ dimension
  | None => ""
  end.

(** ** The libclang view of a header

    The parser is an external collaborator; a cursor carries what the
    script reads from it. *)

Inductive CursorKind :=
| TRANSLATION_UNIT | FUNCTION_DECL | PARM_DECL | FIELD_DECL
| ENUM_CONSTANT_DECL | TYPEDEF_DECL | STRUCT_DECL | UNION_DECL
| ENUM_DECL | TYPE_REF | UNEXPOSED_ATTR | OTHER_KIND.

Definition CursorKind_eqb (a b : CursorKind) : bool :=
  match a, b with
  | TRANSLATION_UNIT, TRANSLATION_UNIT | FUNCTION_DECL, FUNCTION_DECL
  | PARM_DECL, PARM_DECL | FIELD_DECL, FIELD_DECL
  | ENUM_CONSTANT_DECL, ENUM_CONSTANT_DECL | TYPEDEF_DECL, TYPEDEF_DECL
  | STRUCT_DECL, STRUCT_DECL | UNION_DECL, UNION_DECL
  | ENUM_DECL, ENUM_DECL | TYPE_REF, TYPE_REF
  | UNEXPOSED_ATTR, UNEXPOSED_ATTR | OTHER_KIND, OTHER_KIND => true
  | _, _ => false
  end.

#[local] Set Warnings "-register-all".
Inductive Cursor := mkCursor {
  kind : CursorKind;
  spelling : string;                 (* cursor.spelling *)
  type_spelling : string;            (* cursor.type.spelling *)
  result_type_spelling : string;     (* cursor.result_type.spelling *)
  canonical_spelling : string;       (* cursor.type.get_canonical().spelling *)
  location_file : option string;     (* cursor.location.file, then .name *)
  enum_value : Z;                    (* cursor.enum_value *)
  get_children : list Cursor         (* cursor.get_children() *)
}.

(** [cursor.walk_preorder()] *)
Fixpoint walk_preorder (c : Cursor) : list Cursor :=
  match c with
  | mkCursor _ _ _ _ _ _ _ children => c :: flat_map walk_preorder children
  end.

(** ** The entity model *)

(** The newline, [\n]. *)
Definition nl : string := String "010" EmptyString.

Module Argument.
Record t := mk { name : string; type : string }.

Definition __init__ (cursor : Cursor) : t :=
  {| name := spelling cursor;
     type := formatAndCleanType (type_spelling cursor) |}.

Definition __str__ (self : t) : string :=
  mergeTypeAndVariable (type self) (name self).
End Argument.

Module Function.
Record t := mk {
  return_type : string;
  name : string;
  arguments : list Argument.t
}.

Definition __init__ (cursor : Cursor) : t :=
  {| return_type := formatAndCleanType (result_type_spelling cursor);
     name := spelling cursor;
     arguments :=
       map Argument.__init__
           (filter (fun child => CursorKind_eqb (kind child) PARM_DECL)
                   (get_children cursor)) |}.

Definition __str__ (self : t) : string :=
  fold_left (fun result argument =>
               result ++ nl ++ Argument.__str__ argument)
            (arguments self)
            (return_type self ++ " " ++ name self).
End Function.

(** [combine_struct_or_union_decl(cursor)] *)
Definition combine_struct_or_union_decl (cursor : Cursor) : string :=
  fold_left
    (fun code child =>
       if CursorKind_eqb (kind child) FIELD_DECL
       then code ++ "  "
              ++ mergeTypeAndVariable
                   (formatAndCleanType (type_spelling child)) (spelling child)
              ++ ";" ++ nl
       else code)
    (get_children cursor)
    (spelling cursor ++ " {" ++ nl)
  ++ "}".

Definition combine_struct_decl (cursor : Cursor) : string :=
  "struct " ++ combine_struct_or_union_decl cursor.

Definition combine_union_decl (cursor : Cursor) : string :=
  "union " ++ combine_struct_or_union_decl cursor.

(** [combine_enum_decl(cursor)] *)
Definition combine_enum_decl (cursor : Cursor) : string :=
  fold_left
    (fun code child =>
       if CursorKind_eqb (kind child) ENUM_CONSTANT_DECL
       then code ++ "  " ++ spelling child ++ " = "
              ++ format_int (enum_value child) ++ "," ++ nl
       else code)
    (get_children cursor)
    ("enum " ++ spelling cursor ++ " {" ++ nl)
  ++ "}".

Module TypeDefinition.
Record t := mk { name : string; type : string }.

(** One pass of the loop over the typedef's children: [self.type] before
    and after looking at [child] ([None] is Python's [None]). *)
Definition visit_child (type : option string) (child : Cursor)
  : option string :=
  match kind child with
  | STRUCT_DECL => Some (combine_struct_decl child)
  | UNION_DECL => Some (combine_union_decl child)
  | ENUM_DECL => Some (combine_enum_decl child)
  | TYPE_REF => Some (spelling child)
  | _ => type
  end.

Definition __init__ (cursor : Cursor) : t :=
  let type := fold_left visit_child (get_children cursor) None in
  {| name := spelling cursor;
     type := match type with
             | Some type => type
             | None => formatAndCleanType (canonical_spelling cursor)
             end |}.

Definition __str__ (self : t) : string :=
  "typedef " ++ type self ++ " " ++ name self.
End TypeDefinition.

(** The filter shared by the two collectors: the cursor has a file and it
    is the header itself. *)
Definition from_file (file_name : string) (cursor : Cursor) : bool :=
  match location_file cursor with
  | None => false
  | Some f => String.eqb f file_name
  end.

(** [collect_function_prototypes(tu)]; [tu] is the root cursor. *)
Definition collect_function_prototypes (tu : Cursor) : list Function.t :=
  let file_name := spelling tu in
  map Function.__init__
      (filter (fun cursor => from_file file_name cursor
                             && CursorKind_eqb (kind cursor) FUNCTION_DECL)
              (walk_preorder tu)).

(** [collect_types(tu)] *)
Definition collect_types (tu : Cursor) : list TypeDefinition.t :=
  let file_name := spelling tu in
  map TypeDefinition.__init__
      (filter (fun cursor => from_file file_name cursor
                             && CursorKind_eqb (kind cursor) TYPEDEF_DECL)
              (walk_preorder tu)).

(** The body of [collect_defines] once the file is open: [text] is the
    content [f.readlines()] cuts into lines. *)
Definition collect_defines_text (text : string) : list string :=
  fold_left
    (fun defines line =>
       let line := strip line in
       if negb (startswith "#define XCB" line) then defines
       else (defines ++ [line])%list)
    (readlines text) [].

(** ** Wrangler generation: the code synthesiser *)

Definition arguments_str (function : Function.t) : list string :=
  map Argument.__str__ (Function.arguments function).

(** [generate_function_typedefs(functions)] *)
Definition generate_function_typedefs (functions : list Function.t)
  : list string :=
  map (fun function =>
         "typedef " ++ Function.return_type function
           ++ " (*t" ++ Function.name function
           ++ ") (" ++ join "," (arguments_str function) ++ ");")
      functions.

(** [generate_extern_function_declarations(functions)]; the format string
    has two fields, the joined arguments passed third are not printed. *)
Definition generate_extern_function_declarations (functions : list Function.t)
  : list string :=
  map (fun function =>
         "extern t" ++ Function.name function
           ++ " " ++ Function.name function ++ "_impl;")
      functions.

(** [generate_extern_function_definitions(functions)] *)
Definition generate_extern_function_definitions (functions : list Function.t)
  : list string :=
  map (fun function =>
         "t" ++ Function.name function
           ++ " " ++ Function.name function ++ "_impl;")
      functions.

(** [os.path.basename(p)]: what follows the last slash. *)
Definition basename (p : string) : string :=
  slice_from (rfind "/" p + 1) p.

Definition macro_prefix (header : string) : string :=
  upper (replace ".h" "" (basename header)).

(** [generate_dynload_calls(header, functions)] *)
Definition generate_dynload_calls (header : string)
           (functions : list Function.t) : list string :=
  let macro_prefix := macro_prefix header in
  map (fun function =>
         "  " ++ macro_prefix ++ "_LIBRARY_FIND("
           ++ Function.name function ++ ");")
      functions.

Definition argument_names (function : Function.t) : list string :=
  map Argument.name (Function.arguments function).

(** [generate_extern_function_wrappers(functions)] *)
Definition generate_extern_function_wrappers (functions : list Function.t)
  : list string :=
  map (fun function =>
         (formatAndCleanType (Function.return_type function)
            ++ " " ++ Function.name function)
           ++ ("(" ++ join ", " (arguments_str function) ++ ")" ++ " {" ++ nl)
           ++ ("  return " ++ Function.name function ++ "_impl("
                 ++ join ", " (argument_names function) ++ ");" ++ nl)
           ++ ("}" ++ nl))
      functions.

(** [generate_wrapper_declarations(functions)] *)
Definition generate_wrapper_declarations (functions : list Function.t)
  : list string :=
  map (fun function =>
         (formatAndCleanType (Function.return_type function)
            ++ " " ++ Function.name function)
           ++ ("(" ++ join ", " (arguments_str function) ++ ")" ++ ";"))
      functions.

(** ** The wrangler context

    A Python dictionary keeps its keys in insertion order and the script
    iterates over it; it is modelled as an association list in that
    order. *)

Definition dict (V : Type) : Type := list (string * V).

Fixpoint dict_get {V : Type} (key : string) (d : dict V) : option V :=
  match d with
  | [] => None
  | (k, v) :: d' => if String.eqb k key then Some v else dict_get key d'
  end.

(** Store [v] under a key that is present; the key keeps its place. *)
Fixpoint dict_set {V : Type} (key : string) (v : V) (d : dict V) : dict V :=
  match d with
  | [] => []
  | (k, v0) :: d' =>
      if String.eqb k key then (k, v) :: d' else (k, v0) :: dict_set key v d'
  end.

Definition Wrangler : Type := dict (dict (list string)).

Inductive exn :=
| KeyError (key : string)
| IOError (path : string)
| UnicodeDecodeError (path : string)
| TranslationUnitLoadError (path : string).

Inductive Result (A : Type) :=
| Ok (a : A)
| Raise (e : exn).
Arguments Ok {A} a.
Arguments Raise {A} e.

Definition bindR {A B : Type} (r : Result A) (k : A -> Result B) : Result B :=
  match r with
  | Ok a => k a
  | Raise e => Raise e
  end.

(** [wrangler[group][variable].extend(lines)] *)
Definition extend (group variable : string) (lines : list string)
           (wrangler : Wrangler) : Result Wrangler :=
  match dict_get group wrangler with
  | None => Raise (KeyError group)
  | Some variables =>
      match dict_get variable variables with
      | None => Raise (KeyError variable)
      | Some bucket =>
          Ok (dict_set group
                (dict_set variable (bucket ++ lines)%list variables)
                wrangler)
      end
  end.

(** The bucket [wrangler[group][variable]], empty when there is none. *)
Definition bucket (group variable : string) (wrangler : Wrangler)
  : list string :=
  match dict_get group wrangler with
  | None => []
  | Some variables =>
      match dict_get variable variables with
      | None => []
      | Some lines => lines
      end
  end.

Definition section_marker (header : string) : string :=
  "/* " ++ basename header ++ " */".

(** [add_functions_to_wrangler(header, wrangler, functions)] *)
Definition add_functions_to_wrangler (header : string) (wrangler : Wrangler)
           (functions : list Function.t) : Result Wrangler :=
  let section := [section_marker header] in
  let typedefs := (section ++ generate_function_typedefs functions)%list in
  let externs :=
    (section ++ generate_extern_function_declarations functions)%list in
  let definitions :=
    (section ++ generate_extern_function_definitions functions)%list in
  let dynload :=
    ([("  " ++ nth 0 section "")%string]
       ++ generate_dynload_calls header functions)%list in
  let wrappers :=
    (section ++ generate_extern_function_wrappers functions)%list in
  let wrapper_declarations := generate_wrapper_declarations functions in
  bindR (extend "functions" "typedefs" typedefs wrangler) (fun wrangler =>
  bindR (extend "functions" "wrapper_declarations" wrapper_declarations
                wrangler) (fun wrangler =>
  bindR (extend "functions" "declarations" externs wrangler) (fun wrangler =>
  bindR (extend "functions" "definitions" definitions wrangler)
        (fun wrangler =>
  bindR (extend "functions" "dynload" dynload wrangler) (fun wrangler =>
  extend "functions" "wrappers" wrappers wrangler))))).

(** [add_types_to_wrangler(header, wrangler, types)] *)
Definition add_types_to_wrangler (header : string) (wrangler : Wrangler)
           (types : list TypeDefinition.t) : Result Wrangler :=
  let typedefs :=
    fold_left (fun typedefs type =>
                 (typedefs ++ [(TypeDefinition.__str__ type ++ ";" ++ nl)%string])%list)
              types [section_marker header] in
  extend "types" "definitions" typedefs wrangler.

(** [add_definitions_to_wrangler(header, wrangler, definitions)] *)
Definition add_definitions_to_wrangler (header : string) (wrangler : Wrangler)
           (definitions : list string) : Result Wrangler :=
  extend "definitions" "all" definitions wrangler.

(** ** The template substitution engine *)

Definition template_variable (group variable : string) : string :=
  "%" ++ group ++ "_" ++ variable ++ "%".

(** The pairs of the nested iteration, in its order, each with the lines
    [wrangler[group][variable]] (keys of a dictionary are distinct, so the
    look-up gives the value stored with the key). *)
Definition wrangler_items (wrangler : Wrangler)
  : list (string * string * list string) :=
  flat_map (fun '(group, variables) =>
              map (fun '(variable, lines) => (group, variable, lines))
                  variables)
           wrangler.

Definition replace_variable (data : string)
           (item : string * string * list string) : string :=
  let '(group, variable, lines) := item in
  replace (template_variable group variable) (join nl lines) data.

(** [replace_template_variables(wrangler, data)] *)
Definition replace_template_variables (wrangler : Wrangler) (data : string)
  : string :=
  fold_left
    (fun data '(group, variables) =>
       fold_left
         (fun data '(variable, lines) =>
            replace (template_variable group variable) (join nl lines) data)
         variables data)
    wrangler data.

(** ** Files and the run of the script

    The world the script acts on: the files it can open, and the record of
    what it did to the outside, oldest first.  A function that raises
    leaves the world as it was at that point.  Opening a file for writing
    is taken to succeed, and what is written is stored as it is (the line
    separator of the system is LF). *)

Inductive Event :=
| EvParse (header : string)          (* idx.parse(header, ...) *)
| EvRead (path : string)             (* a file opened for reading *)
| EvWrite (path data : string).      (* a file opened "w" and written *)

Record World := mkWorld {
  files : string -> option string;
  events : list Event
}.

Definition IO (A : Type) : Type := World -> Result A * World.

Definition ret {A : Type} (a : A) : IO A := fun w => (Ok a, w).

Definition bind {A B : Type} (m : IO A) (k : A -> IO B) : IO B :=
  fun w =>
    match m w with
    | (Ok a, w') => k a w'
    | (Raise e, w') => (Raise e, w')
    end.

Definition lift {A : Type} (r : Result A) : IO A := fun w => (r, w).

Notation "x <- m ;; k" := (bind m (fun x => k))
  (at level 61, m at next level, right associativity).
Notation "m ;;; k" := (bind m (fun _ => k))
  (at level 61, right associativity).

(** [open(path, "r")] and the decoding of the content: what the file
    object reads from, before the translation of line ends.  A missing
    file raises at once, an undecodable one when it is read. *)
Definition open_text (path : string) : IO string :=
  fun w =>
    match files w path with
    | Some data =>
        (if is_ascii data then Ok data else Raise (UnicodeDecodeError path),
         {| files := files w; events := (events w ++ [EvRead path])%list |})
    | None => (Raise (IOError path), w)
    end.

(** [open(path, "r")] followed by [read()]. *)
Definition read_file (path : string) : IO string :=
  data <- open_text path ;;
  ret (translate_newlines data).

(** [open(path, "w")] followed by [write(data)]: the file is replaced. *)
Definition write_file (path data : string) : IO unit :=
  fun w =>
    (Ok tt,
     {| files := fun p => if String.eqb p path then Some data else files w p;
        events := (events w ++ [EvWrite path data])%list |}).

(** [os.path.join(a, *p)] of [posixpath]. *)
Definition path_join2 (path b : string) : string :=
  if startswith "/" b then b
  else if String.eqb path "" || endswith "/" path then path ++ b
  else path ++ "/" ++ b.

Definition os_path_join (a : string) (p : list string) : string :=
  fold_left path_join2 p a.

(** [collect_defines(file_name)] *)
Definition collect_defines (file_name : string) : IO (list string) :=
  text <- open_text file_name ;;
  ret (collect_defines_text text).

Definition default_headers : list string :=
  ["/usr/include/xcb/xcb.h"; "/usr/include/xcb/xproto.h"].

Definition initial_wrangler : Wrangler :=
  [("functions",
    [("typedefs", []); ("wrapper_declarations", []); ("declarations", []);
     ("definitions", []); ("dynload", []); ("wrappers", [])]);
   ("types", [("definitions", [])]);
   ("definitions", [("all", [])])].

Section Run.

(** The parser: [Index.create().parse(file_name, args=('-x', 'c-header'))]
    gives the root cursor of the translation unit, or fails. *)
Variable index_parse : string -> option Cursor.

(** [os.path.dirname(os.path.realpath(__file__))] *)
Variable script_dir : string.

Definition parse_header (file_name : string) : IO Cursor :=
  fun w =>
    match index_parse file_name with
    | Some tu =>
        (Ok tu,
         {| files := files w;
            events := (events w ++ [EvParse file_name])%list |})
    | None => (Raise (TranslationUnitLoadError file_name), w)
    end.

(** [parse_file(file_name)] *)
Definition parse_file (file_name : string)
  : IO (list Function.t * list TypeDefinition.t * list string) :=
  tu <- parse_header file_name ;;
  let functions := collect_function_prototypes tu in
  let types := collect_types tu in
  defines <- collect_defines file_name ;;
  ret (functions, types, defines).

(** [write_wrangler_to_file(wrangler, template, destination)] *)
Definition write_wrangler_to_file (wrangler : Wrangler)
           (template destination : string) : IO unit :=
  data <- read_file template ;;
  let data := replace_template_variables wrangler data in
  write_file destination data.

Definition template_h : string :=
  os_path_join script_dir ["xcbew.template.h"].
Definition output_h : string :=
  os_path_join script_dir [".."; "include"; "xcbew.h"].
Definition template_c : string :=
  os_path_join script_dir ["xcbew.template.c"].
Definition output_c : string :=
  os_path_join script_dir [".."; "source"; "xcbew.c"].

(** [write_wrangler_to_files(wrangler)] *)
Definition write_wrangler_to_files (wrangler : Wrangler) : IO unit :=
  write_wrangler_to_file wrangler template_h output_h ;;;
  write_wrangler_to_file wrangler template_c output_c.

(** The body of the [for header in headers] loop of the main block; the
    call of [write_wrangler_to_files] is part of the body. *)
Definition process_header (header : string) (wrangler : Wrangler)
  : IO Wrangler :=
  parsed <- parse_file header ;;
  let '(functions, types, definitions) := parsed in
  wrangler <- lift (add_functions_to_wrangler header wrangler functions) ;;
  wrangler <- lift (add_types_to_wrangler header wrangler types) ;;
  wrangler <- lift (add_definitions_to_wrangler header wrangler
                                                definitions) ;;
  write_wrangler_to_files wrangler ;;;
  ret wrangler.

Fixpoint for_headers (headers : list string) (wrangler : Wrangler)
  : IO Wrangler :=
  match headers with
  | [] => ret wrangler
  | header :: headers' =>
      wrangler <- process_header header wrangler ;;
      for_headers headers' wrangler
  end.

(** The headers the run works on, from [sys.argv]. *)
Definition headers_of_argv (argv : list string) : list string :=
  if (List.length argv =? 2)%nat then [nth 1 argv ""] else default_headers.

(** The main block. *)
Definition main (argv : list string) : IO Wrangler :=
  for_headers (headers_of_argv argv) initial_wrangler.

End Run.

(** ** Notions used to state the properties *)

(** [sub in s] *)
Definition contains (sub s : string) : bool :=
  match rfind_nat sub s with
  | Some _ => true
  | None => false
  end.

Definition leading_space (s : string) : bool :=
  match s with
  | String c _ => isspace c
  | EmptyString => false
  end.

(** A spelling on which no step of [formatAndCleanType] has anything to do:
    no star to move, no white space in front, no [struct] keyword to drop. *)
Definition settled (u : string) : bool :=
  negb (contains " *" u)
  && negb (leading_space u)
  && negb (startswith "struct " u && negb (endswith "*" u)).

(** ** Sample headers

    Cursors as libclang gives them for a few small declarations, all
    located in the header [Sample.header]. *)

Module Sample.

Definition header : string := "/usr/include/xcb/xcb.h".

Definition node (k : CursorKind) (name type : string)
           (children : list Cursor) : Cursor :=
  mkCursor k name type "" type (Some header) 0 children.

Definition parm (name type : string) : Cursor := node PARM_DECL name type [].

Definition func (name type result : string) (children : list Cursor)
  : Cursor :=
  mkCursor FUNCTION_DECL name type result type (Some header) 0 children.

(** [int add(int a, int b);] *)
Definition add : Cursor :=
  func "add" "int (int, int)" "int" [parm "a" "int"; parm "b" "int"].

(** [char **names(void);] *)
Definition names : Cursor := func "names" "char **(void)" "char **" [].

(** A typedef cursor with a structure declaration and a type reference
    among its children, in this order. *)
Definition point_fields : Cursor :=
  node STRUCT_DECL "point" "struct point"
       [node FIELD_DECL "x" "int" []; node FIELD_DECL "y" "int" []].

Definition point_t : Cursor :=
  node TYPEDEF_DECL "point_t" "point_t"
       [point_fields; node TYPE_REF "struct point" "struct point" []].

(** The translation unit of a header with [add], and the text of that
    header. *)
Definition tu (file_name : string) (children : list Cursor) : Cursor :=
  mkCursor TRANSLATION_UNIT file_name "" "" "" None 0 children.

Definition text : string :=
  "#define XCB_NONE 0" ++ nl ++ "#define FOO 1" ++ nl
    ++ "int add(int a, int b);" ++ nl.

(** A second header, [/usr/include/xcb/xproto.h], declaring
    [void xcb_flush_all(int *c);]. *)
Definition header2 : string := "/usr/include/xcb/xproto.h".

Definition flush_all : Cursor :=
  mkCursor FUNCTION_DECL "xcb_flush_all" "void (int *)" "void"
           "void (int *)" (Some header2) 0
           [mkCursor PARM_DECL "c" "int *" "" "int *" (Some header2) 0 []].

Definition text2 : string :=
  "#define XCB_KEY_PRESS 2" ++ nl
    ++ "void xcb_flush_all(int *c);" ++ nl.

(** The parser on the two headers. *)
Definition index_parse (file_name : string) : option Cursor :=
  if String.eqb file_name header then Some (tu header [add])
  else if String.eqb file_name header2 then Some (tu header2 [flush_all])
  else None.

(** A parser that knows the first header only. *)
Definition index_parse_first (file_name : string) : option Cursor :=
  if String.eqb file_name header then Some (tu header [add]) else None.

Definition script_dir : string := "/opt/xcbew/auto".

Definition files_of (l : list (string * string)) (path : string)
  : option string :=
  dict_get path l.

(** A world with the two headers and two short templates, no output file
    yet. *)
Definition inputs : list (string * string) :=
  [(header, text); (header2, text2);
   ("/opt/xcbew/auto/xcbew.template.h", "%functions_wrapper_declarations%");
   ("/opt/xcbew/auto/xcbew.template.c", "%functions_definitions%")].

Definition world : World :=
  {| files := files_of inputs; events := [] |}.

(** The same inputs, with output files left by an earlier run. *)
Definition world_stale : World :=
  {| files :=
       files_of (("/opt/xcbew/auto/../include/xcbew.h", "stale")
                   :: ("/opt/xcbew/auto/../source/xcbew.c", "stale")
                   :: inputs);
     events := [] |}.

(** A context in which the content of one bucket holds the placeholder
    of a later one. *)
Definition nested : Wrangler :=
  [("functions", [("typedefs", ["/* %types_definitions% */"])]);
   ("types", [("definitions", ["typedef int x_t;"])])].

End Sample.

(** ** Resolution of a typedef's type, in words *)

(** The child kinds that decide the type of a typedef. *)
Definition structural (child : Cursor) : bool :=
  match kind child with
  | STRUCT_DECL | UNION_DECL | ENUM_DECL | TYPE_REF => true
  | _ => false
  end.

(** The text such a child stands for. *)
Definition render_child (child : Cursor) : string :=
  match kind child with
  | STRUCT_DECL => combine_struct_decl child
  | UNION_DECL => combine_union_decl child
  | ENUM_DECL => combine_enum_decl child
  | _ => spelling child
  end.

Definition resolve (chosen : option Cursor) (cursor : Cursor) : string :=
  match chosen with
  | Some child => render_child child
  | None => formatAndCleanType (canonical_spelling cursor)
  end.

(** "The first matching child determines rendering": the first child, in
    order, of one of the four kinds. *)
Definition type_from_first_match (cursor : Cursor) : string :=
  resolve (find structural (get_children cursor)) cursor.

(** The same sentence read as a priority among kinds: a structure child
    before a union child before an enumeration child before a type
    reference. *)
Definition has_kind (k : CursorKind) (child : Cursor) : bool :=
  CursorKind_eqb (kind child) k.

Definition type_by_kind_priority (cursor : Cursor) : string :=
  let children := get_children cursor in
  let first k := find (has_kind k) children in
  let chosen :=
    match first STRUCT_DECL with
    | Some c => Some c
    | None =>
        match first UNION_DECL with
        | Some c => Some c
        | None =>
            match first ENUM_DECL with
            | Some c => Some c
            | None => first TYPE_REF
            end
        end
    end in
  resolve chosen cursor.

(** The last child, in order, of one of the four kinds. *)
Definition type_from_last_match (cursor : Cursor) : string :=
  resolve (find structural (rev (get_children cursor))) cursor.

(** ** The macro constant scan, in words *)

(** "Every line, after trimming, that starts with the fixed prefix is kept
    verbatim": the lines of the text as they are, selected by their trimmed
    form. *)
Definition is_xcb_define (line : string) : bool :=
  startswith "#define XCB" (strip line).

Definition collect_defines_verbatim (text : string) : list string :=
  filter is_xcb_define (readlines text).

(** ** Array dimensions *)

(** One bracketed group: an opening bracket, no further opening bracket,
    a closing bracket at the end. *)
Definition is_dimension (d : string) : bool :=
  match d with
  | String c rest =>
      Ascii.eqb c "["%char && negb (contains "[" rest) && endswith "]" rest
  | EmptyString => false
  end.

Definition concat_all (l : list string) : string :=
  fold_right append "" l.

(** [k] closing brackets. *)
Fixpoint closers (k : nat) : string :=
  match k with
  | O => ""
  | S k' => String "]" (closers k')
  end.

(** ** The macro prefix, in words *)

(** "The header's base filename with its file extension stripped": the
    name up to its last dot, the name itself when it has no dot. *)
Definition strip_extension (name : string) : string :=
  match rfind_nat "." name with
  | Some i => take i name
  | None => name
  end.

Definition macro_prefix_by_extension (header : string) : string :=
  upper (strip_extension (basename header)).

(** The three aggregator calls the main loop makes for one header. *)
Definition add_header (header : string) (functions : list Function.t)
           (types : list TypeDefinition.t) (definitions : list string)
           (wrangler : Wrangler) : Result Wrangler :=
  bindR (add_functions_to_wrangler header wrangler functions) (fun wrangler =>
  bindR (add_types_to_wrangler header wrangler types) (fun wrangler =>
  add_definitions_to_wrangler header wrangler definitions)).

(** The context a run ends with, empty when the run raised. *)
Definition final_wrangler (run : Result Wrangler * World) : Wrangler :=
  match fst run with
  | Ok wrangler => wrangler
  | Raise _ => []
  end.

(** ** Two runs *)

(** Two worlds hold the same text, or no file, under each of [paths]. *)
Definition agree_on (paths : list string) (w1 w2 : World) : Prop :=
  forall p, In p paths -> files w1 p = files w2 p.

(** A step that, started in worlds agreeing on [pre], goes the same way in
    both: when it returns in one it returns the same value in the other,
    and the worlds then agree on [post]. *)
Definition same_run {A : Type} (pre post : list string) (m : IO A) : Prop :=
  forall w1 w2 a w1',
    agree_on pre w1 w2 ->
    m w1 = (Ok a, w1') ->
    exists w2', m w2 = (Ok a, w2') /\ agree_on post w1' w2'.

(** A step that leaves every file outside [written] as it found it. *)
Definition writes_only {A : Type} (written : list string) (m : IO A) : Prop :=
  forall w r w' p,
    m w = (r, w') -> ~ In p written -> files w' p = files w p.

(** ** Further notions

    Rendering of one field and of one enumerator, reading a decimal
    literal back, the subtree of a cursor, and what one header adds to the
    buckets. *)

(** The line [combine_struct_or_union_decl] emits for a field. *)
Definition field_line (child : Cursor) : string :=
  "  " ++ mergeTypeAndVariable (formatAndCleanType (type_spelling child))
                               (spelling child)
       ++ ";" ++ nl.

(** The line [combine_enum_decl] emits for an enumerator. *)
Definition enumerator_line (child : Cursor) : string :=
  "  " ++ spelling child ++ " = " ++ format_int (enum_value child)
       ++ "," ++ nl.

(** Reading a decimal literal. *)
Definition parse_int (s : string) : option Z :=
  option_map Z.of_int (NilZero.int_of_string s).

(** [descendant d c]: [d] is [c] or lies below [c] in the cursor tree. *)
Inductive descendant : Cursor -> Cursor -> Prop :=
| descendant_self (c : Cursor) : descendant c c
| descendant_child (c child d : Cursor) :
    In child (get_children c) -> descendant d child -> descendant d c.

(** There is a bucket [wrangler[group][variable]]. *)
Definition has_bucket (group variable : string) (wrangler : Wrangler) : bool :=
  match dict_get group wrangler with
  | None => false
  | Some variables =>
      match dict_get variable variables with
      | None => false
      | Some _ => true
      end
  end.

(** The [extend] calls the three aggregator functions make for one
    header, in the order they are made. *)
Definition header_output (header : string) (functions : list Function.t)
           (types : list TypeDefinition.t) (definitions : list string)
  : list (string * string * list string) :=
  [("functions", "typedefs",
    section_marker header :: generate_function_typedefs functions);
   ("functions", "wrapper_declarations",
    generate_wrapper_declarations functions);
   ("functions", "declarations",
    section_marker header :: generate_extern_function_declarations functions);
   ("functions", "definitions",
    section_marker header :: generate_extern_function_definitions functions);
   ("functions", "dynload",
    ("  " ++ section_marker header)
      :: generate_dynload_calls header functions);
   ("functions", "wrappers",
    section_marker header :: generate_extern_function_wrappers functions);
   ("types", "definitions",
    section_marker header
      :: map (fun type => TypeDefinition.__str__ type ++ ";" ++ nl) types);
   ("definitions", "all", definitions)].

(** The lines among [output] that go to the bucket [group]/[variable]. *)
Definition contribution (group variable : string)
           (output : list (string * string * list string)) : list string :=
  flat_map (fun '(g, v, lines) =>
              if String.eqb g group && String.eqb v variable
              then lines else [])
           output.

(** The pairs of a context, in iteration order, without the lines. *)
Definition wrangler_keys (wrangler : Wrangler) : list (string * string) :=
  map (fun '(group, variable, _) => (group, variable))
      (wrangler_items wrangler).

(** No percent sign in a text. *)
Definition percent_free (s : string) : bool := negb (contains "%" s).

(** A sequence of [extend] calls, stopping at the first that raises. *)
Definition extend_all (output : list (string * string * list string))
           (wrangler : Wrangler) : Result Wrangler :=
  fold_left (fun r '(g, v, lines) => bindR r (extend g v lines))
            output (Ok wrangler).

(** * Properties *)

(** ** Strings *)

Lemma append_nil_r (s : string) : s ++ "" = s.
Proof. induction s as [|c s IH]; simpl; congruence. Qed.

Lemma append_assoc (a b c : string) : (a ++ b) ++ c = a ++ (b ++ c).
Proof. induction a as [|x a IH]; simpl; congruence. Qed.

Lemma length_append (a b : string) :
  String.length (a ++ b) = (String.length a + String.length b)%nat.
Proof. induction a as [|x a IH]; simpl; congruence. Qed.

Lemma lstrip_fixed (s : string) : leading_space s = false -> lstrip s = s.
Proof. destruct s as [|c s]; simpl; [reflexivity|]. now intros ->. Qed.

Lemma rstrip_nil_inv (c : ascii) (s : string) :
  rstrip (String c s) = "" -> isspace c = true /\ rstrip s = "".
Proof.
  simpl. destruct (rstrip s) eqn:E; [|discriminate].
  destruct (isspace c); [auto | discriminate].
Qed.

Lemma rstrip_idem (s : string) : rstrip (rstrip s) = rstrip s.
Proof.
  induction s as [|c s IH]; [reflexivity|].
  simpl. destruct (rstrip s) as [|d r] eqn:E.
  - destruct (isspace c) eqn:Hc; simpl; [reflexivity | now rewrite Hc].
  - simpl in IH |- *. now rewrite IH.
Qed.

(** What [rstrip] leaves starts like its argument. *)
Lemma rstrip_leading (s : string) :
  leading_space s = false -> leading_space (rstrip s) = false.
Proof.
  destruct s as [|c s]; simpl; [reflexivity|].
  intros Hc. destruct (rstrip s); [rewrite Hc|]; simpl; auto.
Qed.

Lemma lstrip_leading (s : string) : leading_space (lstrip s) = false.
Proof.
  induction s as [|c s IH]; simpl; [reflexivity|].
  destruct (isspace c) eqn:Hc; [assumption | simpl; assumption].
Qed.

Lemma strip_leading (s : string) : leading_space (strip s) = false.
Proof. apply rstrip_leading, lstrip_leading. Qed.

Lemma strip_rstrip (s : string) : rstrip (strip s) = strip s.
Proof. apply rstrip_idem. Qed.

Lemma strip_fixed (s : string) :
  leading_space s = false -> rstrip s = s -> strip s = s.
Proof. intros Hl Hr. unfold strip. now rewrite (lstrip_fixed _ Hl). Qed.

Lemma strip_idem (s : string) : strip (strip s) = strip s.
Proof. apply strip_fixed; [apply strip_leading | apply strip_rstrip]. Qed.

(** A string without trailing white space has tails without it. *)
Lemma rstrip_fixed_tail (c : ascii) (s : string) :
  rstrip (String c s) = String c s -> rstrip s = s.
Proof.
  simpl. destruct (rstrip s) as [|d r] eqn:E.
  - destruct (isspace c); [discriminate|]. now intros [= <-].
  - now intros [= <-].
Qed.

Lemma rstrip_fixed_drop (n : nat) (s : string) :
  rstrip s = s -> rstrip (drop n s) = drop n s.
Proof.
  revert s. induction n as [|n IH]; intros s Hs; [exact Hs|].
  destruct s as [|c s]; [reflexivity|].
  simpl. apply IH. eapply rstrip_fixed_tail; eassumption.
Qed.

Lemma rfind_nat_none_tail (sub : string) (c : ascii) (s : string) :
  rfind_nat sub (String c s) = None ->
  rfind_nat sub s = None /\ prefix sub (String c s) = false.
Proof.
  cbn [rfind_nat]. destruct (rfind_nat sub s); [discriminate|].
  destruct (prefix sub (String c s)); [discriminate | auto].
Qed.

(** Replacing a text that does not occur changes nothing. *)
Lemma replace_from_absent (old new s : string) :
  rfind_nat old s = None -> replace_from old new 0 s = s.
Proof.
  induction s as [|c s IH]; [reflexivity|].
  intros H. apply rfind_nat_none_tail in H as [Hs Hp].
  cbn [replace_from]. rewrite Hp. now rewrite IH.
Qed.

Lemma replace_absent (old new s : string) :
  old <> "" -> contains old s = false -> replace old new s = s.
Proof.
  intros Hold H. unfold contains in H.
  destruct (rfind_nat old s) eqn:E; [discriminate|].
  destruct old; [congruence|]. now apply replace_from_absent.
Qed.

Lemma prefix_nil (s : string) : prefix "" s = true.
Proof. now destruct s. Qed.

(** ** Type normalisation *)

Lemma formatAndCleanType_rstrip (t : string) :
  rstrip (formatAndCleanType t) = formatAndCleanType t.
Proof.
  unfold formatAndCleanType.
  destruct (startswith "struct " _ && negb (endswith "*" _)).
  - apply rstrip_fixed_drop, strip_rstrip.
  - apply strip_rstrip.
Qed.

(** The normaliser leaves a settled spelling without trailing white space
    as it is. *)
Lemma formatAndCleanType_settled (u : string) :
  settled u = true -> rstrip u = u -> formatAndCleanType u = u.
Proof.
  unfold settled. intros H Hr.
  apply andb_prop in H as [H H3]. apply andb_prop in H as [H1 H2].
  apply negb_true_iff in H1, H2, H3.
  unfold formatAndCleanType.
  rewrite (replace_absent " *" "* " u) by (congruence || assumption).
  rewrite (strip_fixed u H2 Hr). now rewrite H3.
Qed.

Lemma prefix_length (a b : string) :
  prefix a b = true -> (String.length a <= String.length b)%nat.
Proof.
  revert a. induction b as [|c b IH]; intros [|x a]; simpl;
    try discriminate; try lia.
  destruct (ascii_dec x c); [|discriminate]. intros H. apply IH in H. lia.
Qed.

(** Replacing a text by one of the same length keeps the length. *)
Lemma length_replace_from (old new s : string) (k : nat) :
  String.length old = String.length new -> old <> "" ->
  (k <= String.length s)%nat ->
  String.length (replace_from old new k s) = (String.length s - k)%nat.
Proof.
  intros Hlen Hold. revert k.
  induction s as [|c s IH]; intros k Hk; [reflexivity|].
  cbn [replace_from]. destruct k as [|k].
  - destruct (prefix old (String c s)) eqn:Hp.
    + apply prefix_length in Hp. simpl in Hp.
      assert (0 < String.length old)%nat
        by (destruct old; [congruence | simpl; lia]).
      rewrite length_append, IH by lia. simpl. lia.
    + simpl. rewrite IH by lia. lia.
  - simpl in Hk. rewrite IH by lia. reflexivity.
Qed.

Lemma length_lstrip (s : string) :
  (String.length (lstrip s) <= String.length s)%nat.
Proof.
  induction s as [|c s IH]; simpl; [lia|].
  destruct (isspace c); simpl; lia.
Qed.

Lemma length_rstrip (s : string) :
  (String.length (rstrip s) <= String.length s)%nat.
Proof.
  induction s as [|c s IH]; simpl; [lia|].
  destruct (rstrip s); [destruct (isspace c)|]; simpl in *; lia.
Qed.

Lemma lstrip_same_length (s : string) :
  String.length (lstrip s) = String.length s -> lstrip s = s.
Proof.
  destruct s as [|c s]; [reflexivity|]. simpl.
  destruct (isspace c); [|reflexivity].
  pose proof (length_lstrip s). lia.
Qed.

Lemma rstrip_same_length (s : string) :
  String.length (rstrip s) = String.length s -> rstrip s = s.
Proof.
  induction s as [|c s IH]; [reflexivity|]. simpl.
  pose proof (length_rstrip s) as Hle.
  destruct (rstrip s) as [|d r] eqn:E.
  - destruct (isspace c); simpl; [lia|].
    intros H. destruct s; [reflexivity | simpl in H; lia].
  - simpl. intros H. rewrite IH; [reflexivity | simpl in *; lia].
Qed.

Lemma strip_same_length (s : string) :
  String.length (strip s) = String.length s -> strip s = s.
Proof.
  unfold strip. intros H.
  pose proof (length_rstrip (lstrip s)). pose proof (length_lstrip s).
  assert (E : lstrip s = s) by (apply lstrip_same_length; lia).
  rewrite E in *. now apply rstrip_same_length.
Qed.

Lemma length_drop (n : nat) (s : string) :
  String.length (drop n s) = (String.length s - n)%nat.
Proof.
  revert s. induction n as [|n IH]; intros [|c s]; simpl; auto.
Qed.

(** Where the star moves, the text changes. *)
Lemma replace_from_fixed_absent (s : string) :
  replace_from " *" "* " 0 s = s -> rfind_nat " *" s = None.
Proof.
  induction s as [|c s IH]; [reflexivity|].
  cbn [replace_from rfind_nat].
  destruct (prefix " *" (String c s)) eqn:Hp.
  - cbn [prefix] in Hp. destruct (ascii_dec " " c) as [<-|]; [|discriminate].
    discriminate.
  - intros [= H]. now rewrite (IH H).
Qed.

(** A spelling the normaliser leaves as it is, is settled. *)
Lemma formatAndCleanType_fixed_settled (u : string) :
  formatAndCleanType u = u -> settled u = true.
Proof.
  unfold formatAndCleanType. intros H.
  set (r := replace " *" "* " u) in *.
  assert (Hr : String.length r = String.length u).
  { unfold r, replace.
    rewrite length_replace_from; [lia | reflexivity | discriminate | lia]. }
  pose proof (length_rstrip (lstrip r)) as H1.
  pose proof (length_lstrip r) as H2. fold (strip r) in H1.
  destruct (startswith "struct " (strip r) && negb (endswith "*" (strip r)))
    eqn:Hc.
  - exfalso. apply andb_prop in Hc as [Hc _].
    apply prefix_length in Hc. simpl in Hc.
    apply (f_equal String.length) in H. unfold slice_from in H.
    rewrite length_drop in H. unfold slice_index in H.
    cbn [Z.ltb Z.compare] in H. lia.
  - assert (Hs : strip r = r).
    { apply strip_same_length. rewrite H. lia. }
    rewrite Hs in H, Hc. rewrite H in Hc. rewrite <- Hs in H.
    unfold settled. rewrite Hc.
    assert (Hl : leading_space u = false).
    { rewrite <- H. apply strip_leading. }
    rewrite Hl. unfold contains.
    rewrite Hs in H. unfold r, replace in H.
    now rewrite (replace_from_fixed_absent u H).
Qed.

(** C2, as amended: normalising twice gives the same as normalising once
    exactly for the spellings whose normal form is settled, that is,
    contains no space-star pair, has no white space in front, and does not
    begin with the [struct] keyword unless it ends with a star. *)
Theorem formatAndCleanType_idempotent_iff_settled (t : string) :
  formatAndCleanType (formatAndCleanType t) = formatAndCleanType t
  <-> settled (formatAndCleanType t) = true.
Proof.
  split.
  - apply formatAndCleanType_fixed_settled.
  - intros H. apply formatAndCleanType_settled; [exact H|].
    apply formatAndCleanType_rstrip.
Qed.

Lemma formatAndCleanType_idempotent_iff_settled_witness :
  settled (formatAndCleanType "const struct xcb_setup_t *") = true
  /\ formatAndCleanType (formatAndCleanType "const struct xcb_setup_t *")
     = formatAndCleanType "const struct xcb_setup_t *".
Proof.
  split; [reflexivity|].
  apply (proj2 (formatAndCleanType_idempotent_iff_settled
                  "const struct xcb_setup_t *")).
  reflexivity.
Defined.

(** C2 as stated fails: on the spelling of a pointer to pointer the second
    pass moves a star the first pass left behind. *)
Lemma formatAndCleanType_not_idempotent :
  formatAndCleanType "char **" = "char* *"
  /\ formatAndCleanType "char* *" = "char**"
  /\ ~ (forall t : string,
           formatAndCleanType (formatAndCleanType t) = formatAndCleanType t).
Proof.
  split; [reflexivity|]. split; [reflexivity|].
  intros H. specialize (H "char **"). discriminate H.
Qed.

(** ** The fragments of one function *)

(** C1, as amended: for a function built from a cursor whose normalised
    return type is settled, the typedef and the wrapper prototype print the
    same return type string and the same merged argument strings in the same
    order; the extern declaration and the definition print the name only. *)
Theorem fragments_share_signature (cursor : Cursor) :
  let f := Function.__init__ cursor in
  let R := formatAndCleanType (result_type_spelling cursor) in
  let N := spelling cursor in
  let A := map Argument.__str__
               (map Argument.__init__
                    (filter (fun c => CursorKind_eqb (kind c) PARM_DECL)
                            (get_children cursor))) in
  settled R = true ->
  generate_function_typedefs [f]
  = ["typedef " ++ R ++ " (*t" ++ N ++ ") (" ++ join "," A ++ ");"]
  /\ generate_wrapper_declarations [f]
     = [R ++ " " ++ N ++ "(" ++ join ", " A ++ ");"]
  /\ generate_extern_function_declarations [f]
     = ["extern t" ++ N ++ " " ++ N ++ "_impl;"]
  /\ generate_extern_function_definitions [f]
     = ["t" ++ N ++ " " ++ N ++ "_impl;"].
Proof.
  intros f R N A HR. subst f R N A. repeat split.
  unfold generate_wrapper_declarations. cbn [map Function.__init__
    Function.return_type Function.name arguments_str Function.arguments].
  rewrite (formatAndCleanType_settled _ HR (formatAndCleanType_rstrip _)).
  now rewrite append_assoc.
Qed.

Lemma fragments_share_signature_witness :
  settled (formatAndCleanType (result_type_spelling Sample.add)) = true
  /\ generate_function_typedefs [Function.__init__ Sample.add]
     = ["typedef int (*tadd) (int a,int b);"]
  /\ generate_wrapper_declarations [Function.__init__ Sample.add]
     = ["int add(int a, int b);"].
Proof.
  split; [reflexivity|].
  destruct (fragments_share_signature Sample.add) as (H1 & H2 & _);
    [reflexivity|].
  split; [exact H1 | exact H2].
Defined.

(** C1 as stated fails: for [char **names(void)] no return type string is
    common to the typedef and the wrapper prototype. *)
Lemma fragments_differ_on_pointer_to_pointer :
  generate_function_typedefs [Function.__init__ Sample.names]
  = ["typedef char* * (*tnames) ();"]
  /\ generate_wrapper_declarations [Function.__init__ Sample.names]
     = ["char** names();"]
  /\ ~ (forall cursor : Cursor,
           exists R : string,
             generate_function_typedefs [Function.__init__ cursor]
             = ["typedef " ++ R ++ " (*t" ++ spelling cursor ++ ") ("
                  ++ join "," (arguments_str (Function.__init__ cursor))
                  ++ ");"]
             /\ generate_wrapper_declarations [Function.__init__ cursor]
                = [R ++ " " ++ spelling cursor ++ "("
                     ++ join ", " (arguments_str (Function.__init__ cursor))
                     ++ ");"]).
Proof.
  split; [reflexivity|]. split; [reflexivity|].
  intros H. destruct (H Sample.names) as (R & H1 & H2).
  cbv in H1, H2. injection H1 as H1. injection H2 as H2.
  change (("char* * (*tnames) ();") = R ++ " (*tnames) ();") in H1.
  change ("char** names();" = R ++ " names();") in H2.
  do 6 (destruct R as [|? R]; [discriminate H2 || discriminate H1|];
        simpl in H1, H2; injection H1 as <- H1;
        first [discriminate H2 | injection H2 as H2]).
Qed.

(** ** Type definitions *)

Lemma find_app {A : Type} (f : A -> bool) (l1 l2 : list A) :
  find f (l1 ++ l2)%list
  = match find f l1 with
    | Some x => Some x
    | None => find f l2
    end.
Proof.
  induction l1 as [|a l1 IH]; [reflexivity|].
  simpl. destruct (f a); [reflexivity | exact IH].
Qed.

Lemma visit_child_structural (type : option string) (child : Cursor) :
  TypeDefinition.visit_child type child
  = if structural child then Some (render_child child) else type.
Proof.
  unfold TypeDefinition.visit_child, structural, render_child.
  destruct (kind child); reflexivity.
Qed.

(** The loop over the children keeps what the last structural child set. *)
Lemma visit_children_last (children : list Cursor) (type : option string) :
  fold_left TypeDefinition.visit_child children type
  = match find structural (rev children) with
    | Some child => Some (render_child child)
    | None => type
    end.
Proof.
  revert type. induction children as [|c children IH]; intros type.
  - reflexivity.
  - cbn [fold_left rev]. rewrite IH, find_app, visit_child_structural.
    destruct (find structural (rev children)); [reflexivity|].
    simpl. destruct (structural c); reflexivity.
Qed.

(** C3, as amended: the type of a typedef is rendered from the last of its
    children that is a structure, union, enumeration or type reference;
    every child is looked at, a later one of these kinds replaces what an
    earlier one set; only when there is no such child the type is the
    normalised canonical spelling of the underlying type. *)
Theorem TypeDefinition_last_match_wins (cursor : Cursor) :
  TypeDefinition.type (TypeDefinition.__init__ cursor)
  = type_from_last_match cursor.
Proof.
  unfold TypeDefinition.__init__, type_from_last_match, resolve.
  cbn [TypeDefinition.type]. rewrite visit_children_last.
  destruct (find structural (rev (get_children cursor))); reflexivity.
Qed.

(** C3 as stated fails: with a structure declaration followed by a type
    reference among the children, the type reference decides, under either
    reading of "first". *)
Lemma TypeDefinition_first_match_loses :
  TypeDefinition.type (TypeDefinition.__init__ Sample.point_t) = "struct point"
  /\ type_from_first_match Sample.point_t
     = "struct point {" ++ nl ++ "  int x;" ++ nl ++ "  int y;" ++ nl ++ "}"
  /\ type_by_kind_priority Sample.point_t
     = type_from_first_match Sample.point_t
  /\ TypeDefinition.type (TypeDefinition.__init__ Sample.point_t)
     <> type_from_first_match Sample.point_t.
Proof. repeat split. discriminate. Qed.

(** ** Macro constants *)

Lemma collect_defines_fold (lines defines : list string) :
  fold_left
    (fun defines line =>
       let line := strip line in
       if negb (startswith "#define XCB" line) then defines
       else (defines ++ [line])%list)
    lines defines
  = (defines ++ map strip (filter is_xcb_define lines))%list.
Proof.
  revert defines. induction lines as [|l lines IH]; intros defines.
  - simpl. now rewrite app_nil_r.
  - cbn [fold_left filter]. rewrite IH. unfold is_xcb_define at 2.
    destruct (startswith "#define XCB" (strip l)); simpl.
    + now rewrite <- app_assoc.
    + reflexivity.
Qed.

Lemma collect_defines_text_trimmed (text : string) :
  collect_defines_text text
  = map strip (filter is_xcb_define (readlines text)).
Proof. unfold collect_defines_text. now rewrite collect_defines_fold. Qed.

(** C7, as amended: the collector keeps exactly the lines of the header
    whose trimmed form starts with [#define XCB], in their order, and keeps
    each of them in its trimmed form: white space at both ends of the line,
    the line terminator included, is removed.  The lines are those of the
    text-mode file: a line ends at LF, at CR LF or at a CR alone. *)
Theorem collect_defines_keeps_trimmed_lines
        (file_name text : string) (w : World) :
  files w file_name = Some text ->
  is_ascii text = true ->
  fst (collect_defines file_name w)
  = Ok (map strip (filter is_xcb_define (readlines text))).
Proof.
  intros H Ha. unfold collect_defines, bind, open_text. rewrite H, Ha.
  cbn [ret fst]. now rewrite collect_defines_text_trimmed.
Qed.

Lemma collect_defines_keeps_trimmed_lines_witness :
  files Sample.world Sample.header = Some Sample.text
  /\ is_ascii Sample.text = true
  /\ fst (collect_defines Sample.header Sample.world)
     = Ok ["#define XCB_NONE 0"].
Proof.
  split; [reflexivity|]. split; [reflexivity|].
  rewrite (collect_defines_keeps_trimmed_lines
             Sample.header Sample.text Sample.world eq_refl eq_refl).
  reflexivity.
Defined.

(** A CR alone ends a line as well. *)
Example collect_defines_lone_cr :
  collect_defines_text
    ("#define XCB_A 1" ++ String "013" "#define XCB_B 2" ++ nl)
  = ["#define XCB_A 1"; "#define XCB_B 2"].
Proof. reflexivity. Qed.

(** C7 as stated fails: an indented definition is not kept as written. *)
Lemma collect_defines_not_verbatim :
  let text := "  #define XCB_NONE 0  " ++ nl ++ "#define FOO 1" ++ nl in
  let w := {| files := fun _ => Some text; events := [] |} in
  fst (collect_defines "xcb.h" w) = Ok ["#define XCB_NONE 0"]
  /\ collect_defines_verbatim text = ["  #define XCB_NONE 0  " ++ nl]
  /\ fst (collect_defines "xcb.h" w) <> Ok (collect_defines_verbatim text).
Proof. repeat split. discriminate. Qed.

(** ** Merging a type and a variable *)

Lemma take_drop (n : nat) (s : string) : take n s ++ drop n s = s.
Proof.
  revert s. induction n as [|n IH]; intros [|c s]; simpl; try reflexivity.
  now rewrite IH.
Qed.

Lemma length_take (n : nat) (s : string) :
  String.length (take n s) = Nat.min n (String.length s).
Proof.
  revert s. induction n as [|n IH]; intros [|c s]; simpl; try reflexivity.
  now rewrite IH.
Qed.

Lemma slice_to_from (i : Z) (s : string) : slice_to i s ++ slice_from i s = s.
Proof. apply take_drop. Qed.

Lemma rfind_nat_lt (sub : string) (s : string) (i : nat) :
  sub <> "" -> rfind_nat sub s = Some i -> (i < String.length s)%nat.
Proof.
  intros Hsub. revert i. induction s as [|c s IH]; intros i.
  - simpl. destruct sub; [congruence | discriminate].
  - cbn [rfind_nat String.length]. destruct (rfind_nat sub s) as [j|].
    + intros [= <-]. specialize (IH j eq_refl). lia.
    + destruct (prefix sub (String c s)); [|discriminate].
      intros [= <-]. lia.
Qed.

Lemma endswith_nil (suf : string) : suf <> "" -> endswith suf "" = false.
Proof. destruct suf; [congruence | reflexivity]. Qed.

(** A pass of the loop leaves a shorter type. *)
Lemma slice_to_rfind_shorter (t : string) :
  endswith "]" t = true ->
  (String.length (slice_to (rfind "[" t) t) < String.length t)%nat.
Proof.
  intros He.
  assert (Hlen : (0 < String.length t)%nat).
  { destruct t; [discriminate | simpl; lia]. }
  unfold slice_to, rfind. rewrite length_take.
  destruct (rfind_nat "[" t) as [i|] eqn:E.
  - apply rfind_nat_lt in E; [|discriminate].
    unfold slice_index.
    destruct (Z.of_nat i <? 0)%Z eqn:Hi; [apply Z.ltb_lt in Hi; lia|].
    rewrite Nat2Z.id. lia.
  - unfold slice_index. cbn [Z.ltb Z.compare]. lia.
Qed.

(** The loop of [mergeTypeAndVariable] ends within the budget given by the
    length of the type. *)
Lemma strip_dimensions_total (fuel : nat) (t d : string) :
  (String.length t <= fuel)%nat ->
  exists r, strip_dimensions fuel t d = Some r.
Proof.
  revert t d. induction fuel as [|fuel IH]; intros t d Hlen.
  - destruct t; [|simpl in Hlen; lia]. simpl. eauto.
  - cbn [strip_dimensions]. destruct (endswith "]" t) eqn:He; [|eauto].
    apply IH. pose proof (slice_to_rfind_shorter t He). lia.
Qed.

(** What the loop returns is a cut of the type it was given: nothing is
    lost, and the loop condition is false on the part that remains. *)
Lemma strip_dimensions_cut (fuel : nat) (t d ty dim : string) :
  strip_dimensions fuel t d = Some (ty, dim) ->
  ty ++ dim = t ++ d /\ endswith "]" ty = false.
Proof.
  revert t d. induction fuel as [|fuel IH]; intros t d;
    cbn [strip_dimensions]; destruct (endswith "]" t) eqn:He;
    try discriminate; try (intros [= <- <-]; auto).
  intros H. apply IH in H as [H1 H2]. split; [|exact H2].
  now rewrite H1, <- append_assoc, slice_to_from.
Qed.

Lemma endswith_app (suf a b : string) :
  endswith suf b = true -> endswith suf (a ++ b) = true.
Proof.
  intros H. induction a as [|c a IH]; [exact H|].
  cbn [append endswith]. rewrite IH. now destruct (String.eqb _ _).
Qed.

Lemma endswith_char_rstrip (c : ascii) (s : string) :
  isspace c = false -> endswith (String c "") s = true -> rstrip s = s.
Proof.
  intros Hc. induction s as [|x s IH]; [reflexivity|].
  cbn [endswith]. destruct (String.eqb_spec (String x s) (String c "")) as [E|E].
  - injection E as -> ->. intros _. simpl. now rewrite Hc.
  - intros H. specialize (IH H). simpl. rewrite IH.
    destruct s; [discriminate H | reflexivity].
Qed.

Lemma rstrip_app_fixed (a b : string) :
  b <> "" -> rstrip b = b -> rstrip (a ++ b) = a ++ b.
Proof.
  intros Hb Hr. induction a as [|c a IH]; [exact Hr|].
  simpl. rewrite IH. destruct (a ++ b) eqn:E; [|reflexivity].
  destruct a; simpl in E; [congruence | discriminate].
Qed.

Lemma take_app_length (a b : string) : take (String.length a) (a ++ b) = a.
Proof. induction a as [|c a IH]; simpl; [now destruct b | now rewrite IH]. Qed.

Lemma drop_app_length (a b : string) : drop (String.length a) (a ++ b) = b.
Proof. induction a as [|c a IH]; simpl; auto. Qed.

Lemma rfind_nat_app_dimension (a rest : string) :
  contains "[" rest = false ->
  rfind_nat "[" (a ++ String "[" rest) = Some (String.length a).
Proof.
  unfold contains. intros H.
  destruct (rfind_nat "[" rest) eqn:E; [discriminate|].
  induction a as [|c a IH].
  - cbn [append rfind_nat]. rewrite E. simpl. now destruct rest.
  - cbn [append rfind_nat]. now rewrite IH.
Qed.

Lemma is_dimension_inv (d : string) :
  is_dimension d = true ->
  exists rest, d = String "[" rest /\ contains "[" rest = false
               /\ endswith "]" d = true.
Proof.
  destruct d as [|c rest]; [discriminate|]. simpl is_dimension.
  intros H. apply andb_prop in H as [H H3]. apply andb_prop in H as [H1 H2].
  apply Ascii.eqb_eq in H1 as ->. apply negb_true_iff in H2.
  exists rest. split; [reflexivity|]. split; [exact H2|].
  apply (endswith_app "]" "[" rest H3).
Qed.

(** One pass of the loop moves the last dimension over. *)
Lemma strip_dimensions_step (fuel : nat) (a d acc : string) :
  is_dimension d = true ->
  strip_dimensions (S fuel) (a ++ d) acc
  = strip_dimensions fuel a (d ++ acc).
Proof.
  intros Hd. apply is_dimension_inv in Hd as (rest & -> & Hrest & He).
  cbn [strip_dimensions]. rewrite (endswith_app "]" a _ He).
  unfold rfind, slice_to, slice_from.
  rewrite (rfind_nat_app_dimension a rest Hrest).
  unfold slice_index.
  destruct (Z.of_nat (String.length a) <? 0)%Z eqn:Hi;
    [apply Z.ltb_lt in Hi; lia|].
  rewrite Nat2Z.id, length_append.
  replace (Nat.min _ _) with (String.length a) by lia.
  now rewrite take_app_length, drop_app_length.
Qed.

Lemma concat_all_app (l1 l2 : list string) :
  concat_all (l1 ++ l2)%list = concat_all l1 ++ concat_all l2.
Proof.
  induction l1 as [|x l1 IH]; [reflexivity|].
  simpl. now rewrite IH, append_assoc.
Qed.

Lemma closers_snoc (k : nat) : closers k ++ "]" = closers (S k).
Proof. induction k as [|k IH]; [reflexivity|]. simpl. now rewrite IH. Qed.

(** Where [rfind] finds a character, the text from there on begins with it
    and holds it nowhere else. *)
Lemma rfind_nat_char_some (c : ascii) (t : string) (i : nat) :
  rfind_nat (String c "") t = Some i ->
  (i < String.length t)%nat
  /\ exists rest, drop i t = String c rest
                  /\ rfind_nat (String c "") rest = None.
Proof.
  revert i. induction t as [|x t IH]; intros i; [discriminate|].
  cbn [rfind_nat String.length].
  destruct (rfind_nat (String c "") t) as [j|] eqn:E.
  - intros [= <-]. destruct (IH j eq_refl) as [Hlt Hrest].
    split; [lia | exact Hrest].
  - cbn [prefix]. destruct (ascii_dec c x) as [->|_]; cbv beta iota;
      [|discriminate].
    rewrite prefix_nil. intros [= <-]. split; [lia|]. exists t. now split.
Qed.

Lemma rfind_nat_char_none_app (c : ascii) (a b : string) :
  rfind_nat (String c "") (a ++ b) = None ->
  rfind_nat (String c "") a = None.
Proof.
  induction a as [|x a IH]; [reflexivity|].
  cbn [append rfind_nat].
  destruct (rfind_nat (String c "") (a ++ b)); [discriminate|].
  rewrite (IH eq_refl). cbn [prefix].
  destruct (ascii_dec c x); cbv beta iota; [|reflexivity].
  now rewrite !prefix_nil.
Qed.

Lemma endswith_char_drop (c : ascii) (i : nat) (t : string) :
  endswith (String c "") t = true -> (i < String.length t)%nat ->
  endswith (String c "") (drop i t) = true.
Proof.
  revert t. induction i as [|i IH]; intros t; [now destruct t|].
  destruct t as [|x t]; [simpl; lia|].
  cbn [endswith drop String.length].
  destruct (String.eqb_spec (String x t) (String c "")) as [E|_].
  - injection E as _ ->. simpl. lia.
  - intros H Hlt. apply IH; [exact H | lia].
Qed.

Lemma endswith_char_last (c : ascii) (t : string) :
  endswith (String c "") t = true ->
  take (String.length t - 1) t ++ String c "" = t
  /\ drop (String.length t - 1) t = String c "".
Proof.
  induction t as [|x t IH]; [discriminate|].
  cbn [endswith String.length].
  destruct (String.eqb_spec (String x t) (String c "")) as [E|_].
  - injection E as -> ->. now split.
  - intros H. destruct (IH H) as [H1 H2].
    destruct t as [|y t]; [discriminate H|].
    replace (S (String.length (String y t)) - 1)%nat
      with (S (String.length (String y t) - 1))
      by (cbn [String.length]; lia).
    cbn [take drop append]. now rewrite H1, H2.
Qed.

(** What the loop takes off the end of a type: the bracket groups at its
    end, each from an opening bracket on, and, once no opening bracket is
    left, the closing brackets that remain at the end, one a pass. *)
Lemma strip_dimensions_shape (fuel : nat) (t d ty dim : string) :
  strip_dimensions fuel t d = Some (ty, dim) ->
  exists (k : nat) (groups : list string),
    t = ty ++ closers k ++ concat_all groups
    /\ dim = closers k ++ concat_all groups ++ d
    /\ forallb is_dimension groups = true
    /\ (k <> 0%nat -> contains "[" ty = false)
    /\ (contains "[" t = false -> groups = []).
Proof.
  revert t d. induction fuel as [|fuel IH]; intros t d;
    cbn [strip_dimensions]; destruct (endswith "]" t) eqn:He;
    try discriminate;
    try (intros [= <- <-]; exists 0%nat, []; simpl;
         rewrite append_nil_r; repeat split; congruence).
  intros H. apply IH in H as (k & groups & Ht & Hdim & Hg & Hk & Hn).
  revert Ht Hdim Hn. unfold rfind, slice_to, slice_from, contains.
  destruct (rfind_nat "[" t) as [i|] eqn:E.
  - destruct (rfind_nat_char_some _ _ _ E) as (Hlt & rest & Hrest & Hnone).
    unfold slice_index.
    destruct (Z.of_nat i <? 0)%Z eqn:Hi; [apply Z.ltb_lt in Hi; lia|].
    rewrite Nat2Z.id. replace (Nat.min i (String.length t)) with i by lia.
    intros Ht Hdim _. exists k, (groups ++ [drop i t])%list.
    rewrite concat_all_app. change (concat_all [drop i t]) with (drop i t ++ "").
    rewrite append_nil_r. repeat split.
    + rewrite <- (take_drop i t) at 1. rewrite Ht.
      now rewrite !append_assoc.
    + rewrite Hdim. now rewrite !append_assoc.
    + rewrite forallb_app, Hg. cbn [forallb andb]. rewrite andb_true_r.
      pose proof (endswith_char_drop _ i t He Hlt) as Hend.
      rewrite Hrest in Hend |- *. cbn [is_dimension].
      unfold contains. rewrite Hnone, Ascii.eqb_refl. cbn [negb andb].
      cbn [endswith] in Hend.
      destruct (String.eqb_spec (String "[" rest) "]") as [E'|_];
        [discriminate E' | exact Hend].
    + exact Hk.
    + discriminate.
  - destruct (endswith_char_last _ _ He) as [Htake Hdrop].
    assert (Hlen : (0 < String.length t)%nat).
    { destruct t; [discriminate He | simpl; lia]. }
    unfold slice_index. cbn [Z.ltb Z.compare].
    replace (Z.to_nat (Z.max 0 (-1 + Z.of_nat (String.length t))))
      with (String.length t - 1)%nat by lia.
    rewrite Hdrop. intros Ht Hdim Hn.
    assert (Hpre : rfind_nat "[" (take (String.length t - 1) t) = None).
    { apply (rfind_nat_char_none_app "[" _ "]"). now rewrite Htake. }
    rewrite Hpre in Hn. specialize (Hn eq_refl). subst groups.
    cbn [concat_all fold_right] in Ht, Hdim. rewrite append_nil_r in Ht.
    exists (S k), []. rewrite <- closers_snoc.
    cbn [concat_all fold_right forallb]. repeat split.
    + rewrite <- Htake, Ht. now rewrite !append_assoc.
    + rewrite Hdim. cbn [append]. now rewrite !append_assoc.
    + intros _. rewrite Ht in Hpre.
      now rewrite (rfind_nat_char_none_app "[" _ _ Hpre).
Qed.

(** C8, as amended: merging any type spelling with the empty variable name
    gives a result (the loop ends); the result is the base type that
    remains, trimmed, then the one space of the format, then what the loop
    took off the end of the trimmed type, as it stood there: the bracket
    groups at its end, each from an opening bracket up to a closing one,
    with no opening bracket between, in their order, and before them the
    closing brackets that no opening bracket is left for.  The space stays
    between base type and dimensions. *)
Theorem mergeTypeAndVariable_anonymous (t : string) :
  exists (ty : string) (k : nat) (groups : list string),
    strip_dimensions (String.length (strip t)) (strip t) ""
    = Some (ty, closers k ++ concat_all groups)
    /\ strip t = ty ++ closers k ++ concat_all groups
    /\ endswith "]" ty = false
    /\ forallb is_dimension groups = true
    /\ (k <> 0%nat -> contains "[" ty = false)
    /\ mergeTypeAndVariable t "" = strip ty ++ " " ++ closers k
                                    ++ concat_all groups.
Proof.
  destruct (strip_dimensions_total (String.length (strip t)) (strip t) "")
    as [[ty dim] H]; [lia|].
  destruct (strip_dimensions_cut _ _ _ _ _ H) as [_ H2].
  destruct (strip_dimensions_shape _ _ _ _ _ H)
    as (k & groups & Ht & Hdim & Hg & Hk & _).
  rewrite append_nil_r in Hdim. subst dim.
  exists ty, k, groups. repeat split; auto.
  unfold mergeTypeAndVariable. now rewrite H.
Qed.

(** C8 as stated fails: the separator is there. *)
Lemma mergeTypeAndVariable_anonymous_separator :
  mergeTypeAndVariable "int[4]" "" = "int [4]"
  /\ mergeTypeAndVariable "int[4]" "" <> "int" ++ "[4]".
Proof. split; [reflexivity | discriminate]. Qed.

(** Three spellings with nothing to name: two dimensions, a
    closing bracket with no opening one, and both. *)
Example mergeTypeAndVariable_anonymous_parts :
  mergeTypeAndVariable "char [2][3] " "" = "char [2][3]"
  /\ mergeTypeAndVariable "int]]" "" = "int ]]"
  /\ mergeTypeAndVariable "a][1]" "" = "a ][1]".
Proof. repeat split. Qed.

Lemma strip_dimensions_all (dims : list string) (base acc : string) :
  forallb is_dimension dims = true ->
  endswith "]" base = false ->
  strip_dimensions (List.length dims) (base ++ concat_all dims) acc
  = Some (base, concat_all dims ++ acc).
Proof.
  intros Hd Hb. revert acc.
  induction dims as [|d dims IH] using rev_ind; intros acc.
  - simpl. rewrite append_nil_r, Hb. reflexivity.
  - rewrite forallb_app in Hd. apply andb_prop in Hd as [Hd1 Hd2].
    simpl in Hd2. rewrite andb_true_r in Hd2.
    rewrite concat_all_app, length_app, Nat.add_1_r.
    change (concat_all [d]) with (d ++ "").
    rewrite append_nil_r, <- append_assoc.
    rewrite strip_dimensions_step by assumption.
    rewrite IH by assumption. now rewrite append_assoc.
Qed.

Lemma strip_dimensions_more_fuel (n m : nat) (t d : string) (r : string * string) :
  strip_dimensions n t d = Some r -> (n <= m)%nat ->
  strip_dimensions m t d = Some r.
Proof.
  revert m t d. induction n as [|n IH]; intros m t d H Hle.
  - simpl in H. destruct (endswith "]" t) eqn:He; [discriminate|].
    destruct m; simpl; now rewrite He.
  - destruct m; [lia|]. cbn [strip_dimensions] in *.
    destruct (endswith "]" t); [|exact H]. apply IH; [exact H | lia].
Qed.

Lemma concat_all_dimensions (dims : list string) :
  forallb is_dimension dims = true -> dims <> [] ->
  concat_all dims <> "" /\ leading_space (concat_all dims) = false
  /\ rstrip (concat_all dims) = concat_all dims.
Proof.
  intros Hd Hne. destruct dims as [|d dims]; [congruence|]. clear Hne.
  revert d Hd. induction dims as [|d' dims IH]; intros d Hd.
  - simpl in Hd. rewrite andb_true_r in Hd.
    apply is_dimension_inv in Hd as (rest & -> & _ & He).
    change (concat_all [String "[" rest]) with (String "[" rest ++ "").
    rewrite append_nil_r. split; [discriminate|]. split; [reflexivity|].
    apply (endswith_char_rstrip "]"); [reflexivity | exact He].
  - cbn [forallb] in Hd. apply andb_prop in Hd as [Hd1 Hd2].
    destruct (IH d' Hd2) as (H1 & H2 & H3).
    apply is_dimension_inv in Hd1 as (rest & -> & _ & _).
    change (concat_all (String "[" rest :: d' :: dims))
      with (String "[" rest ++ concat_all (d' :: dims)).
    split; [discriminate|]. split; [reflexivity|].
    now apply rstrip_app_fixed.
Qed.

(** X1: Array dimensions at the end of a type move behind the variable, in
    their order. *)
Lemma mergeTypeAndVariable_dimensions (base variable : string)
      (dims : list string) :
  strip base = base -> endswith "]" base = false ->
  forallb is_dimension dims = true ->
  mergeTypeAndVariable (base ++ concat_all dims) variable
  = base ++ " " ++ variable ++ concat_all dims.
Proof.
  intros Hs Hb Hd.
  assert (Hl : leading_space base = false).
  { rewrite <- Hs. apply strip_leading. }
  assert (Hr : rstrip base = base).
  { rewrite <- Hs. apply strip_rstrip. }
  assert (Hstrip : strip (base ++ concat_all dims) = base ++ concat_all dims).
  { destruct dims as [|d dims]; [simpl; now rewrite append_nil_r|].
    destruct (concat_all_dimensions (d :: dims) Hd) as (H1 & H2 & H3);
      [discriminate|].
    apply strip_fixed; [|now apply rstrip_app_fixed].
    destruct base; [exact H2 | exact Hl]. }
  unfold mergeTypeAndVariable. rewrite Hstrip.
  pose proof (strip_dimensions_all dims base "" Hd Hb) as H.
  destruct (strip_dimensions_total (String.length (base ++ concat_all dims))
              (base ++ concat_all dims) "") as [r Hr']; [lia|].
  rewrite Hr'.
  pose (m := Nat.max (List.length dims)
                     (String.length (base ++ concat_all dims))).
  pose proof (strip_dimensions_more_fuel _ m _ _ _ H (Nat.le_max_l _ _)) as E1.
  pose proof (strip_dimensions_more_fuel _ m _ _ _ Hr' (Nat.le_max_r _ _)) as E2.
  rewrite E1 in E2. injection E2 as <-.
  now rewrite Hs, append_nil_r.
Qed.

Lemma mergeTypeAndVariable_dimensions_witness :
  mergeTypeAndVariable ("char" ++ concat_all ["[2]"; "[3]"]) "buf"
  = "char" ++ " " ++ "buf" ++ concat_all ["[2]"; "[3]"].
Proof.
  apply (mergeTypeAndVariable_dimensions "char" "buf" ["[2]"; "[3]"]);
    reflexivity.
Defined.

(** ** The macro prefix of the dynload calls *)

Lemma prefix_dot_h_app (c : ascii) (s : string) :
  prefix ".h" (String c s) = false ->
  prefix ".h" (String c (s ++ ".h")) = false.
Proof.
  cbn [prefix]. destruct (ascii_dec "." c); [|reflexivity].
  destruct s as [|d s]; cbn [append prefix].
  - destruct (ascii_dec "h" "."); [discriminate | reflexivity].
  - destruct (ascii_dec "h" d); [|reflexivity]. now rewrite !prefix_nil.
Qed.

(** Deleting [.h] from a name that has it only as its ending leaves the
    stem. *)
Lemma replace_dot_h_stem (stem : string) :
  contains ".h" stem = false -> replace ".h" "" (stem ++ ".h") = stem.
Proof.
  unfold contains, replace.
  destruct (rfind_nat ".h" stem) eqn:E; [discriminate|]. intros _.
  induction stem as [|c stem IH]; [reflexivity|].
  apply rfind_nat_none_tail in E as [E Hp].
  cbn [append replace_from]. rewrite (prefix_dot_h_app _ _ Hp).
  now rewrite (IH E).
Qed.

(** Where the code strips the extension and nothing else: for a header
    whose base filename is a stem followed by [.h], the stem itself free of
    [.h], the macro prefix of every dynload line is the stem in upper
    case. *)
Theorem generate_dynload_calls_prefix (header stem : string)
        (functions : list Function.t) :
  basename header = stem ++ ".h" ->
  contains ".h" stem = false ->
  generate_dynload_calls header functions
  = map (fun function =>
           "  " ++ upper stem ++ "_LIBRARY_FIND("
             ++ Function.name function ++ ");")
        functions.
Proof.
  intros Hb Hs. unfold generate_dynload_calls, macro_prefix.
  now rewrite Hb, (replace_dot_h_stem stem Hs).
Qed.

Lemma generate_dynload_calls_prefix_witness :
  basename "/usr/include/xcb/xproto.h" = "xproto" ++ ".h"
  /\ contains ".h" "xproto" = false
  /\ generate_dynload_calls "/usr/include/xcb/xproto.h"
                            [Function.__init__ Sample.add]
     = ["  XPROTO_LIBRARY_FIND(add);"].
Proof.
  split; [reflexivity|]. split; [reflexivity|].
  apply (generate_dynload_calls_prefix "/usr/include/xcb/xproto.h" "xproto"
           [Function.__init__ Sample.add]); reflexivity.
Defined.

(** C6: the macro prefix is not the base filename with its extension
    stripped.  [replace(".h", "")] deletes [.h] wherever it stands in the
    name, not only as its extension: for the header [xcb.hints.h] the
    dynload line carries [XCBINTS], while the base filename without its
    extension, in upper case, is [XCB.HINTS]. *)
Theorem generate_dynload_calls_prefix_inner_dot_h :
  generate_dynload_calls "/usr/include/xcb/xcb.hints.h"
                         [Function.__init__ Sample.add]
  = ["  XCBINTS_LIBRARY_FIND(add);"]
  /\ macro_prefix_by_extension "/usr/include/xcb/xcb.hints.h" = "XCB.HINTS"
  /\ macro_prefix "/usr/include/xcb/xcb.hints.h"
     <> macro_prefix_by_extension "/usr/include/xcb/xcb.hints.h".
Proof. repeat split. discriminate. Qed.

(** ** Template substitution *)

Lemma fold_left_map {A B C : Type} (f : A -> B -> A) (g : C -> B)
      (l : list C) (a : A) :
  fold_left f (map g l) a = fold_left (fun a c => f a (g c)) l a.
Proof. revert a. induction l as [|c l IH]; intros a; simpl; auto. Qed.

Lemma fold_left_ext {A B : Type} (f g : A -> B -> A) (l : list B) (a : A) :
  (forall a b, f a b = g a b) -> fold_left f l a = fold_left g l a.
Proof.
  intros H. revert a. induction l as [|b l IH]; intros a; simpl; auto.
  now rewrite H.
Qed.

(** The nested loops are one pass over the pairs in iteration order. *)
Lemma replace_template_variables_items (wrangler : Wrangler) (data : string) :
  replace_template_variables wrangler data
  = fold_left replace_variable (wrangler_items wrangler) data.
Proof.
  unfold replace_template_variables. revert data.
  induction wrangler as [|[group variables] wrangler IH]; intros data.
  - reflexivity.
  - cbn [fold_left wrangler_items flat_map]. rewrite fold_left_app, IH.
    f_equal. rewrite fold_left_map. apply fold_left_ext.
    now intros a [variable lines].
Qed.

Lemma replace_from_skip_all (old new s : string) (k : nat) :
  (String.length s <= k)%nat -> replace_from old new k s = "".
Proof.
  revert k. induction s as [|c s IH]; intros k Hk; [reflexivity|].
  destruct k; simpl in Hk; [lia|]. cbn [replace_from]. apply IH. lia.
Qed.

Lemma prefix_refl (s : string) : prefix s s = true.
Proof.
  induction s as [|c s IH]; [reflexivity|].
  cbn [prefix]. now destruct (ascii_dec c c).
Qed.

(** A text that is exactly the placeholder becomes the replacement. *)
Lemma replace_self (old new : string) : old <> "" -> replace old new old = new.
Proof.
  destruct old as [|c old]; [congruence|]. intros _.
  unfold replace. cbn [replace_from]. rewrite prefix_refl.
  rewrite replace_from_skip_all by (simpl; lia). apply append_nil_r.
Qed.

(** C10: substitution goes pair by pair.  The replacement for a pair acts
    on the text left by the pairs before it, and the text it produces,
    bucket content included, is what the pairs after it act on; so where the
    template is the placeholder of a pair, the output is that bucket's
    content after the later substitutions, not the content as stored. *)
Theorem replace_template_variables_sequential
        (wrangler : Wrangler) (data : string)
        (before after : list (string * string * list string))
        (group variable : string) (lines : list string) :
  wrangler_items wrangler = (before ++ (group, variable, lines) :: after)%list ->
  replace_template_variables wrangler data
  = fold_left replace_variable after
      (replace (template_variable group variable) (join nl lines)
               (fold_left replace_variable before data))
  /\ (fold_left replace_variable before data
      = template_variable group variable ->
      replace_template_variables wrangler data
      = fold_left replace_variable after (join nl lines)).
Proof.
  intros H. rewrite replace_template_variables_items, H, fold_left_app.
  cbn [fold_left replace_variable]. split; [reflexivity|].
  intros ->. now rewrite replace_self.
Qed.

Lemma replace_template_variables_sequential_witness :
  replace_template_variables Sample.nested "%functions_typedefs%"
  = "/* typedef int x_t; */".
Proof.
  destruct (replace_template_variables_sequential
              Sample.nested "%functions_typedefs%" []
              [("types", "definitions", ["typedef int x_t;"])]
              "functions" "typedefs" ["/* %types_definitions% */"]
              eq_refl) as [_ H].
  rewrite (H eq_refl). reflexivity.
Defined.

(** ** The aggregator *)

(** The buckets of a fresh context after the first header: each list is
    what the aggregator appended. *)
Lemma typedef_lines_fold (types : list TypeDefinition.t) (acc : list string) :
  fold_left (fun typedefs type =>
               (typedefs ++ [(TypeDefinition.__str__ type ++ ";" ++ nl)%string])%list)
            types acc
  = (acc ++ map (fun type => (TypeDefinition.__str__ type ++ ";" ++ nl)%string)
                types)%list.
Proof.
  revert acc. induction types as [|t types IH]; intros acc.
  - simpl. now rewrite app_nil_r.
  - cbn [fold_left map]. rewrite IH. now rewrite <- app_assoc.
Qed.

Lemma add_header_fresh (header : string) (functions : list Function.t)
      (types : list TypeDefinition.t) (definitions : list string) :
  exists wrangler,
    add_header header functions types definitions initial_wrangler
    = Ok wrangler
    /\ bucket "functions" "typedefs" wrangler
       = section_marker header :: generate_function_typedefs functions
    /\ bucket "functions" "wrapper_declarations" wrangler
       = generate_wrapper_declarations functions
    /\ bucket "functions" "declarations" wrangler
       = section_marker header
           :: generate_extern_function_declarations functions
    /\ bucket "functions" "definitions" wrangler
       = section_marker header
           :: generate_extern_function_definitions functions
    /\ bucket "functions" "dynload" wrangler
       = ("  " ++ section_marker header)
           :: generate_dynload_calls header functions
    /\ bucket "functions" "wrappers" wrangler
       = section_marker header :: generate_extern_function_wrappers functions
    /\ bucket "types" "definitions" wrangler
       = section_marker header
           :: map (fun type => TypeDefinition.__str__ type ++ ";" ++ nl) types
    /\ bucket "definitions" "all" wrangler = definitions.
Proof.
  eexists. repeat split.
  cbv [add_header add_functions_to_wrangler add_types_to_wrangler
       add_definitions_to_wrangler bucket].
  cbn. rewrite typedef_lines_fold. reflexivity.
Qed.

Lemma dict_get_set_same {V : Type} (key : string) (v v0 : V) (d : dict V) :
  dict_get key d = Some v0 -> dict_get key (dict_set key v d) = Some v.
Proof.
  induction d as [|[k x] d IH]; [discriminate|].
  cbn [dict_get dict_set]. destruct (String.eqb k key) eqn:E.
  - intros _. cbn [dict_get]. now rewrite E.
  - intros H. cbn [dict_get]. rewrite E. auto.
Qed.

Lemma dict_get_set_other {V : Type} (key key' : string) (v : V) (d : dict V) :
  key' <> key -> dict_get key' (dict_set key v d) = dict_get key' d.
Proof.
  intros Hne. induction d as [|[k x] d IH]; [reflexivity|].
  cbn [dict_get dict_set]. destruct (String.eqb_spec k key) as [->|Hk].
  - cbn [dict_get]. destruct (String.eqb_spec key key'); [congruence|].
    reflexivity.
  - cbn [dict_get]. now rewrite IH.
Qed.

(** [extend] appends to its bucket. *)
Lemma extend_bucket_same (group variable : string) (lines : list string)
      (wrangler wrangler' : Wrangler) :
  extend group variable lines wrangler = Ok wrangler' ->
  bucket group variable wrangler'
  = (bucket group variable wrangler ++ lines)%list.
Proof.
  unfold extend, bucket.
  destruct (dict_get group wrangler) as [variables|] eqn:Eg; [|discriminate].
  destruct (dict_get variable variables) as [old|] eqn:Ev; [|discriminate].
  intros [= <-].
  rewrite (dict_get_set_same _ _ _ _ Eg).
  now rewrite (dict_get_set_same _ _ _ _ Ev).
Qed.

(** [extend] leaves the other buckets alone. *)
Lemma extend_bucket_other (group variable group' variable' : string)
      (lines : list string) (wrangler wrangler' : Wrangler) :
  extend group variable lines wrangler = Ok wrangler' ->
  (group', variable') <> (group, variable) ->
  bucket group' variable' wrangler' = bucket group' variable' wrangler.
Proof.
  unfold extend, bucket.
  destruct (dict_get group wrangler) as [variables|] eqn:Eg; [|discriminate].
  destruct (dict_get variable variables) as [old|] eqn:Ev; [|discriminate].
  intros [= <-] Hne.
  destruct (String.eqb_spec group' group) as [->|Hg].
  - rewrite (dict_get_set_same _ _ _ _ Eg), Eg.
    rewrite dict_get_set_other; [reflexivity | congruence].
  - now rewrite dict_get_set_other.
Qed.

(** Whatever the context holds, the wrapper prototypes of a header are
    appended to their bucket as they are, without a marker line, and the
    typedefs after the marker line. *)
Lemma add_functions_to_wrangler_buckets (header : string)
      (functions : list Function.t) (wrangler wrangler' : Wrangler) :
  add_functions_to_wrangler header wrangler functions = Ok wrangler' ->
  bucket "functions" "wrapper_declarations" wrangler'
  = (bucket "functions" "wrapper_declarations" wrangler
       ++ generate_wrapper_declarations functions)%list
  /\ bucket "functions" "typedefs" wrangler'
     = (bucket "functions" "typedefs" wrangler
          ++ section_marker header :: generate_function_typedefs functions)%list.
Proof.
  unfold add_functions_to_wrangler, bindR.
  destruct (extend "functions" "typedefs" _ wrangler) as [w1|] eqn:E1;
    [|discriminate].
  destruct (extend "functions" "wrapper_declarations" _ w1) as [w2|] eqn:E2;
    [|discriminate].
  destruct (extend "functions" "declarations" _ w2) as [w3|] eqn:E3;
    [|discriminate].
  destruct (extend "functions" "definitions" _ w3) as [w4|] eqn:E4;
    [|discriminate].
  destruct (extend "functions" "dynload" _ w4) as [w5|] eqn:E5;
    [|discriminate].
  intros E6. split.
  - rewrite (extend_bucket_other _ _ _ _ _ _ _ E6) by discriminate.
    rewrite (extend_bucket_other _ _ _ _ _ _ _ E5) by discriminate.
    rewrite (extend_bucket_other _ _ _ _ _ _ _ E4) by discriminate.
    rewrite (extend_bucket_other _ _ _ _ _ _ _ E3) by discriminate.
    rewrite (extend_bucket_same _ _ _ _ _ E2).
    now rewrite (extend_bucket_other _ _ _ _ _ _ _ E1) by discriminate.
  - rewrite (extend_bucket_other _ _ _ _ _ _ _ E6) by discriminate.
    rewrite (extend_bucket_other _ _ _ _ _ _ _ E5) by discriminate.
    rewrite (extend_bucket_other _ _ _ _ _ _ _ E4) by discriminate.
    rewrite (extend_bucket_other _ _ _ _ _ _ _ E3) by discriminate.
    rewrite (extend_bucket_other _ _ _ _ _ _ _ E2) by discriminate.
    now rewrite (extend_bucket_same _ _ _ _ _ E1).
Qed.

(** The macro constants of a header go to their bucket as they are. *)
Lemma add_definitions_to_wrangler_bucket (header : string)
      (definitions : list string) (wrangler wrangler' : Wrangler) :
  add_definitions_to_wrangler header wrangler definitions = Ok wrangler' ->
  bucket "definitions" "all" wrangler'
  = (bucket "definitions" "all" wrangler ++ definitions)%list.
Proof. apply extend_bucket_same. Qed.

(** C4 on a header with one function and one macro constant: the buckets
    functions/wrapper_declarations and definitions/all receive the header's
    lines and no marker line, the bucket functions/typedefs receives the
    marker first. *)
Theorem marker_missing_in_two_buckets :
  let run := main Sample.index_parse Sample.script_dir
                  ["auto.py"; Sample.header] Sample.world in
  bucket "functions" "wrapper_declarations" (final_wrangler run)
  = ["int add(int a, int b);"]
  /\ bucket "definitions" "all" (final_wrangler run) = ["#define XCB_NONE 0"]
  /\ bucket "functions" "typedefs" (final_wrangler run)
     = ["/* xcb.h */"; "typedef int (*tadd) (int a,int b);"]
  /\ bucket "functions" "dynload" (final_wrangler run)
     = ["  /* xcb.h */"; "  XCB_LIBRARY_FIND(add);"]
  /\ bucket "types" "definitions" (final_wrangler run) = ["/* xcb.h */"].
Proof. vm_compute. repeat split. Qed.

(** ** The run *)

(** Every pass of the loop over the headers ends with the substitution of
    both templates and the writing of both output files. *)
Lemma process_header_writes (index_parse : string -> option Cursor)
      (script_dir header : string) (wrangler wrangler' : Wrangler)
      (w w' : World) :
  process_header index_parse script_dir header wrangler w
  = (Ok wrangler', w') ->
  exists data_h data_c,
    events w'
    = (events w
         ++ [EvParse header; EvRead header;
             EvRead (template_h script_dir);
             EvWrite (output_h script_dir) data_h;
             EvRead (template_c script_dir);
             EvWrite (output_c script_dir) data_c])%list.
Proof.
  unfold process_header, parse_file, collect_defines, write_wrangler_to_files,
    write_wrangler_to_file, parse_header, read_file, open_text, write_file,
    bind, lift, ret.
  destruct (index_parse header); [|discriminate]. cbn [files events].
  destruct (files w header) as [text|]; [|discriminate].
  destruct (is_ascii text); [|discriminate]. cbn [files events].
  destruct (add_functions_to_wrangler _ _ _) as [w1|]; [|discriminate].
  destruct (add_types_to_wrangler _ _ _) as [w2|]; [|discriminate].
  destruct (add_definitions_to_wrangler _ _ _) as [w3|]; [|discriminate].
  destruct (files w (template_h script_dir)) as [text_h|]; [|discriminate].
  destruct (is_ascii text_h); [|discriminate]. cbn [files events].
  destruct (if String.eqb (template_c script_dir) (output_h script_dir)
            then _ else _) as [text_c|]; [|discriminate].
  destruct (is_ascii text_c); [|discriminate].
  intros [= <- <-]. cbn [events]. do 2 eexists.
  repeat rewrite <- app_assoc. reflexivity.
Qed.

(** C5 on the default header list: the templates are substituted and both
    output files written once after the first header, before the second
    header is parsed, and once more after the second header. *)
Theorem files_written_after_each_header :
  events (snd (main Sample.index_parse Sample.script_dir ["auto.py"]
                    Sample.world))
  = [EvParse "/usr/include/xcb/xcb.h";
     EvRead "/usr/include/xcb/xcb.h";
     EvRead "/opt/xcbew/auto/xcbew.template.h";
     EvWrite "/opt/xcbew/auto/../include/xcbew.h" "int add(int a, int b);";
     EvRead "/opt/xcbew/auto/xcbew.template.c";
     EvWrite "/opt/xcbew/auto/../source/xcbew.c"
             ("/* xcb.h */" ++ nl ++ "tadd add_impl;");
     EvParse "/usr/include/xcb/xproto.h";
     EvRead "/usr/include/xcb/xproto.h";
     EvRead "/opt/xcbew/auto/xcbew.template.h";
     EvWrite "/opt/xcbew/auto/../include/xcbew.h"
             ("int add(int a, int b);" ++ nl
                ++ "void xcb_flush_all(int* c);");
     EvRead "/opt/xcbew/auto/xcbew.template.c";
     EvWrite "/opt/xcbew/auto/../source/xcbew.c"
             ("/* xcb.h */" ++ nl ++ "tadd add_impl;" ++ nl
                ++ "/* xproto.h */" ++ nl
                ++ "txcb_flush_all xcb_flush_all_impl;")].
Proof. vm_compute. reflexivity. Qed.

(** ** Determinism of a run *)

Lemma agree_on_incl (s s' : list string) (w1 w2 : World) :
  incl s' s -> agree_on s w1 w2 -> agree_on s' w1 w2.
Proof. intros Hi H p Hp. apply H, Hi, Hp. Qed.

Lemma same_run_ret {A : Type} (s : list string) (a : A) :
  same_run s s (ret a).
Proof.
  intros w1 w2 a' w1' H [= <- <-]. exists w2. split; [reflexivity | exact H].
Qed.

Lemma same_run_lift {A : Type} (s : list string) (r : Result A) :
  same_run s s (lift r).
Proof.
  intros w1 w2 a w1' H [= -> <-]. exists w2. split; [reflexivity | exact H].
Qed.

Lemma same_run_bind {A B : Type} (s1 s2 s3 : list string)
      (m : IO A) (k : A -> IO B) :
  same_run s1 s2 m -> (forall a, same_run s2 s3 (k a)) ->
  same_run s1 s3 (bind m k).
Proof.
  intros Hm Hk w1 w2 b w1' Hagree. unfold bind.
  destruct (m w1) as [[a|e] w1m] eqn:E1; [|discriminate].
  intros H. destruct (Hm _ _ _ _ Hagree E1) as (w2m & -> & Hagree').
  exact (Hk a _ _ _ _ Hagree' H).
Qed.

Lemma same_run_weaken {A : Type} (s1 s2 s2' : list string) (m : IO A) :
  incl s2' s2 -> same_run s1 s2 m -> same_run s1 s2' m.
Proof.
  intros Hi Hm w1 w2 a w1' Hagree H.
  destruct (Hm _ _ _ _ Hagree H) as (w2' & E & Hagree').
  exists w2'. split; [exact E|]. eapply agree_on_incl; eassumption.
Qed.

(** Opening a file the worlds agree on. *)
Lemma same_run_open_text (s : list string) (path : string) :
  In path s -> same_run s s (open_text path).
Proof.
  intros Hin w1 w2 a w1' Hagree. unfold open_text.
  rewrite <- (Hagree path Hin).
  destruct (files w1 path) as [data|]; [|discriminate].
  destruct (is_ascii data); [|discriminate].
  intros [= <- <-]. eexists. split; [reflexivity|]. exact Hagree.
Qed.

(** Reading a file the worlds agree on. *)
Lemma same_run_read_file (s : list string) (path : string) :
  In path s -> same_run s s (read_file path).
Proof.
  intros Hin. unfold read_file.
  eapply same_run_bind; [now apply same_run_open_text|].
  intros data. apply same_run_ret.
Qed.

(** Writing a file: afterwards the worlds agree on it as well. *)
Lemma same_run_write_file (s : list string) (path data : string) :
  same_run s (path :: s) (write_file path data).
Proof.
  intros w1 w2 a w1' Hagree. unfold write_file. intros [= <- <-].
  eexists. split; [reflexivity|].
  intros p Hp. cbn [files]. destruct (String.eqb p path) eqn:E; [reflexivity|].
  destruct Hp as [<-|Hp]; [now rewrite String.eqb_refl in E|].
  exact (Hagree p Hp).
Qed.

Section Determinism.

Variable index_parse : string -> option Cursor.
Variable script_dir : string.

Lemma same_run_parse_header (s : list string) (file_name : string) :
  same_run s s (parse_header index_parse file_name).
Proof.
  intros w1 w2 a w1' Hagree. unfold parse_header.
  destruct (index_parse file_name); [|discriminate].
  intros [= <- <-]. eexists. split; [reflexivity|]. exact Hagree.
Qed.

Lemma same_run_parse_file (s : list string) (file_name : string) :
  In file_name s -> same_run s s (parse_file index_parse file_name).
Proof.
  intros Hin. unfold parse_file, collect_defines.
  eapply same_run_bind; [apply same_run_parse_header|]. intros tu.
  eapply same_run_bind.
  - eapply same_run_bind; [now apply same_run_open_text|].
    intros text. apply same_run_ret.
  - intros defines. apply same_run_ret.
Qed.

Lemma same_run_write_wrangler_to_file (s : list string)
      (wrangler : Wrangler) (template destination : string) :
  In template s ->
  same_run s (destination :: s)
           (write_wrangler_to_file wrangler template destination).
Proof.
  intros Hin. unfold write_wrangler_to_file.
  eapply same_run_bind; [now apply same_run_read_file|].
  intros data. apply same_run_write_file.
Qed.

Lemma same_run_write_wrangler_to_files (s : list string)
      (wrangler : Wrangler) :
  In (template_h script_dir) s -> In (template_c script_dir) s ->
  same_run s (output_c script_dir :: output_h script_dir :: s) (write_wrangler_to_files script_dir wrangler).
Proof.
  intros Hh Hc. unfold write_wrangler_to_files.
  eapply same_run_bind.
  - apply same_run_write_wrangler_to_file. exact Hh.
  - intros _. apply same_run_write_wrangler_to_file. now right.
Qed.

Lemma same_run_process_header (s : list string) (header : string)
      (wrangler : Wrangler) :
  In header s ->
  In (template_h script_dir) s -> In (template_c script_dir) s ->
  same_run s (output_c script_dir :: output_h script_dir :: s)
           (process_header index_parse script_dir header wrangler).
Proof.
  intros Hin Hh Hc. unfold process_header.
  eapply same_run_bind; [now apply same_run_parse_file|].
  intros [[functions types] definitions].
  eapply same_run_bind; [apply same_run_lift|]. intros wrangler1.
  eapply same_run_bind; [apply same_run_lift|]. intros wrangler2.
  eapply same_run_bind; [apply same_run_lift|]. intros wrangler3.
  eapply same_run_bind.
  - now apply same_run_write_wrangler_to_files.
  - intros _. apply same_run_ret.
Qed.

(** The loop over the headers: the worlds keep agreeing on the inputs,
    and once a header has been processed they agree on the outputs. *)
Lemma same_run_for_headers (headers : list string) :
  forall (s : list string) (wrangler : Wrangler),
    incl headers s ->
    In (template_h script_dir) s -> In (template_c script_dir) s ->
    same_run s (match headers with
                | [] => s
                | _ :: _ => (output_c script_dir :: output_h script_dir :: s)
                end)
             (for_headers index_parse script_dir headers wrangler).
Proof.
  induction headers as [|header headers IH]; intros s wrangler Hi Hh Hc.
  - apply same_run_ret.
  - cbn [for_headers]. eapply same_run_bind.
    + apply same_run_process_header; [apply Hi; now left | exact Hh | exact Hc].
    + intros wrangler'.
      eapply same_run_weaken;
        [|apply IH;
          [intros p Hp; do 2 right; apply Hi; now right
          |do 2 right; exact Hh | do 2 right; exact Hc]].
      destruct headers; [apply incl_refl|].
      intros p Hp. destruct Hp as [<-|[<-|Hp]];
        [now left | right; now left | do 4 right; exact Hp].
Qed.

Lemma headers_of_argv_nonempty (argv : list string) :
  headers_of_argv argv <> [].
Proof.
  unfold headers_of_argv. destruct (_ =? _)%nat; discriminate.
Qed.

End Determinism.

Lemma main_same_run (index_parse : string -> option Cursor)
      (script_dir : string) (argv : list string) :
  same_run (template_h script_dir :: template_c script_dir
              :: headers_of_argv argv)
           [output_h script_dir; output_c script_dir]
           (main index_parse script_dir argv).
Proof.
  pose proof (same_run_for_headers index_parse script_dir
                (headers_of_argv argv) _ initial_wrangler
                (fun p Hp => in_cons _ _ _ (in_cons _ _ _ Hp))
                (in_eq _ _) (in_cons _ _ _ (in_eq _ _))) as H.
  pose proof (headers_of_argv_nonempty argv) as Hne.
  unfold main. destruct (headers_of_argv argv) as [|h hs]; [congruence|].
  eapply same_run_weaken; [|exact H].
  intros p [<-|[<-|[]]]; [right; now left | now left].
Qed.

(** C9: two runs on worlds that hold the same header texts and the same
    template texts, with the same parser results and arguments, go the same
    way: when one completes, the other completes, and the two output files
    have the same contents in both, whatever the worlds held before under
    other paths. *)
Theorem main_deterministic (index_parse : string -> option Cursor)
        (script_dir : string) (argv : list string)
        (w1 w2 w1' : World) (wrangler : Wrangler) :
  agree_on (template_h script_dir :: template_c script_dir
              :: headers_of_argv argv) w1 w2 ->
  main index_parse script_dir argv w1 = (Ok wrangler, w1') ->
  exists w2',
    main index_parse script_dir argv w2 = (Ok wrangler, w2')
    /\ files w1' (output_h script_dir) = files w2' (output_h script_dir)
    /\ files w1' (output_c script_dir) = files w2' (output_c script_dir).
Proof.
  intros Hagree Hrun.
  destruct (main_same_run index_parse script_dir argv _ _ _ _ Hagree Hrun)
    as (w2' & E & Hfinal).
  exists w2'. split; [exact E|].
  split; apply Hfinal; [left | right; left]; reflexivity.
Qed.

Lemma main_deterministic_witness :
  exists w2',
    main Sample.index_parse Sample.script_dir ["auto.py"] Sample.world_stale
    = (Ok (final_wrangler (main Sample.index_parse Sample.script_dir
                                ["auto.py"] Sample.world)), w2')
    /\ files (snd (main Sample.index_parse Sample.script_dir ["auto.py"]
                        Sample.world))
             (output_h Sample.script_dir)
       = files w2' (output_h Sample.script_dir)
    /\ files (snd (main Sample.index_parse Sample.script_dir ["auto.py"]
                        Sample.world))
             (output_c Sample.script_dir)
       = files w2' (output_c Sample.script_dir).
Proof.
  apply (main_deterministic Sample.index_parse Sample.script_dir ["auto.py"]
           Sample.world Sample.world_stale).
  - intros p Hp. simpl in Hp.
    destruct Hp as [<-|[<-|[<-|[<-|[]]]]]; reflexivity.
  - vm_compute. reflexivity.
Defined.

(** ** Running the script again *)

Lemma writes_only_ret {A : Type} (s : list string) (a : A) :
  writes_only s (ret a).
Proof. intros w r w' p [= <- <-] _. reflexivity. Qed.

Lemma writes_only_lift {A : Type} (s : list string) (r : Result A) :
  writes_only s (lift r).
Proof. intros w r' w' p [= <- <-] _. reflexivity. Qed.

Lemma writes_only_bind {A B : Type} (s : list string)
      (m : IO A) (k : A -> IO B) :
  writes_only s m -> (forall a, writes_only s (k a)) ->
  writes_only s (bind m k).
Proof.
  intros Hm Hk w r w' p. unfold bind.
  destruct (m w) as [[a|e] wm] eqn:E.
  - intros H Hp. rewrite (Hk a _ _ _ _ H Hp). exact (Hm _ _ _ _ E Hp).
  - intros [= <- <-] Hp. exact (Hm _ _ _ _ E Hp).
Qed.

Lemma writes_only_open_text (s : list string) (path : string) :
  writes_only s (open_text path).
Proof.
  intros w r w' p. unfold open_text.
  destruct (files w path); intros [= <- <-] _; reflexivity.
Qed.

Lemma writes_only_read_file (s : list string) (path : string) :
  writes_only s (read_file path).
Proof.
  unfold read_file. apply writes_only_bind; [apply writes_only_open_text|].
  intros data. apply writes_only_ret.
Qed.

Lemma writes_only_write_file (s : list string) (path data : string) :
  In path s -> writes_only s (write_file path data).
Proof.
  intros Hin w r w' p. unfold write_file. intros [= <- <-] Hp.
  cbn [files]. destruct (String.eqb_spec p path) as [->|]; [tauto | reflexivity].
Qed.

Lemma append_same_length_tail (a b u v : string) :
  a ++ u = b ++ v -> String.length u = String.length v -> u = v.
Proof.
  revert b. induction a as [|x a IH]; intros [|y b] H Hlen; simpl in H.
  - exact H.
  - apply (f_equal String.length) in H. simpl in H.
    rewrite length_append in H. lia.
  - apply (f_equal String.length) in H. simpl in H.
    rewrite length_append in H. lia.
  - injection H as _ H. exact (IH b H Hlen).
Qed.

(** A joined path ends with its last component. *)
Lemma path_join2_tail (path b : string) :
  startswith "/" b = false -> exists x, path_join2 path b = x ++ b.
Proof.
  intros Hb. unfold path_join2. rewrite Hb.
  destruct (String.eqb path "" || endswith "/" path).
  - now exists path.
  - exists (path ++ "/"). now rewrite append_assoc.
Qed.

Section Rerun.

Variable index_parse : string -> option Cursor.
Variable script_dir : string.

Lemma template_h_tail : exists x, template_h script_dir = x ++ "plate.h".
Proof.
  destruct (path_join2_tail script_dir "xcbew.template.h" eq_refl) as [x E].
  exists (x ++ "xcbew.tem"). now rewrite append_assoc.
Qed.

Lemma template_c_tail : exists x, template_c script_dir = x ++ "plate.c".
Proof.
  destruct (path_join2_tail script_dir "xcbew.template.c" eq_refl) as [x E].
  exists (x ++ "xcbew.tem"). now rewrite append_assoc.
Qed.

Lemma output_h_tail : exists x, output_h script_dir = x ++ "xcbew.h".
Proof. apply path_join2_tail. reflexivity. Qed.

Lemma output_c_tail : exists x, output_c script_dir = x ++ "xcbew.c".
Proof. apply path_join2_tail. reflexivity. Qed.

(** The templates are not the output files. *)
Lemma templates_not_outputs :
  ~ In (template_h script_dir) [output_h script_dir; output_c script_dir]
  /\ ~ In (template_c script_dir) [output_h script_dir; output_c script_dir].
Proof.
  destruct template_h_tail as [xh ->], template_c_tail as [xc ->],
           output_h_tail as [yh ->], output_c_tail as [yc ->].
  split; intros [H|[H|[]]];
    apply append_same_length_tail in H; (reflexivity || discriminate).
Qed.

Lemma writes_only_write_wrangler_to_files (wrangler : Wrangler) :
  writes_only [output_h script_dir; output_c script_dir]
              (write_wrangler_to_files script_dir wrangler).
Proof.
  unfold write_wrangler_to_files, write_wrangler_to_file.
  apply writes_only_bind.
  - apply writes_only_bind; [apply writes_only_read_file|].
    intros data. apply writes_only_write_file. now left.
  - intros _. apply writes_only_bind; [apply writes_only_read_file|].
    intros data. apply writes_only_write_file. right. now left.
Qed.

Lemma writes_only_process_header (header : string) (wrangler : Wrangler) :
  writes_only [output_h script_dir; output_c script_dir]
              (process_header index_parse script_dir header wrangler).
Proof.
  unfold process_header, parse_file, collect_defines.
  apply writes_only_bind.
  - apply writes_only_bind.
    + intros w r w' p. unfold parse_header.
      destruct (index_parse header); intros [= <- <-] _; reflexivity.
    + intros tu. apply writes_only_bind.
      * apply writes_only_bind; [apply writes_only_open_text|].
        intros text. apply writes_only_ret.
      * intros defines. apply writes_only_ret.
  - intros [[functions types] definitions].
    apply writes_only_bind; [apply writes_only_lift|]. intros wrangler1.
    apply writes_only_bind; [apply writes_only_lift|]. intros wrangler2.
    apply writes_only_bind; [apply writes_only_lift|]. intros wrangler3.
    apply writes_only_bind; [apply writes_only_write_wrangler_to_files|].
    intros _. apply writes_only_ret.
Qed.

Lemma writes_only_for_headers (headers : list string) (wrangler : Wrangler) :
  writes_only [output_h script_dir; output_c script_dir]
              (for_headers index_parse script_dir headers wrangler).
Proof.
  revert wrangler. induction headers as [|header headers IH]; intros wrangler.
  - apply writes_only_ret.
  - cbn [for_headers]. apply writes_only_bind.
    + apply writes_only_process_header.
    + intros wrangler'. apply IH.
Qed.

(** X23: A second run, started where a completed run ended, completes with the
    same context and leaves both output files as the first run left them,
    provided no header is one of the two output files. *)
Lemma main_rerun (argv : list string) (w w' : World) (wrangler : Wrangler) :
  (forall h, In h (headers_of_argv argv) ->
             ~ In h [output_h script_dir; output_c script_dir]) ->
  main index_parse script_dir argv w = (Ok wrangler, w') ->
  exists w'',
    main index_parse script_dir argv w' = (Ok wrangler, w'')
    /\ files w'' (output_h script_dir) = files w' (output_h script_dir)
    /\ files w'' (output_c script_dir) = files w' (output_c script_dir).
Proof.
  intros Hheaders Hrun.
  assert (Hagree : agree_on (template_h script_dir :: template_c script_dir
                               :: headers_of_argv argv) w w').
  { intros p Hp. symmetry.
    apply (writes_only_for_headers _ _ _ _ _ p Hrun).
    destruct templates_not_outputs as [Hh Hc].
    destruct Hp as [<-|[<-|Hp]]; auto. }
  destruct (main_same_run index_parse script_dir argv _ _ _ _ Hagree Hrun)
    as (w'' & E & Hfinal).
  exists w''. split; [exact E|].
  split; symmetry; apply Hfinal; [left | right; left]; reflexivity.
Qed.

End Rerun.

(** ** Worked examples *)

Example merge_array : mergeTypeAndVariable "int[4]" "x" = "int x[4]".
Proof. reflexivity. Qed.

Example merge_matrix :
  mergeTypeAndVariable "char[2][3]" "buf" = "char buf[2][3]".
Proof. reflexivity. Qed.

Example merge_unmatched_bracket : mergeTypeAndVariable "x]" "v" = "x v]".
Proof. reflexivity. Qed.

Example normalize_struct_pointer :
  formatAndCleanType "struct Foo *" = "struct Foo*".
Proof. reflexivity. Qed.

Example normalize_struct : formatAndCleanType "struct Foo" = "Foo".
Proof. reflexivity. Qed.

Example replace_overlapping : replace "aa" "b" "aaa" = "ba".
Proof. reflexivity. Qed.

Example replace_empty_pattern : replace "" "-" "abc" = "-a-b-c-".
Proof. reflexivity. Qed.

Example format_int_negative : format_int (-12) = "-12" /\ format_int 0 = "0".
Proof. split; reflexivity. Qed.

(** The fragments of [int add(int a, int b);]. *)
Example fragments_of_add :
  let functions :=
    collect_function_prototypes (Sample.tu Sample.header [Sample.add]) in
  generate_function_typedefs functions = ["typedef int (*tadd) (int a,int b);"]
  /\ generate_extern_function_declarations functions
     = ["extern tadd add_impl;"]
  /\ generate_extern_function_definitions functions = ["tadd add_impl;"]
  /\ generate_dynload_calls Sample.header functions
     = ["  XCB_LIBRARY_FIND(add);"]
  /\ generate_extern_function_wrappers functions
     = ["int add(int a, int b) {" ++ nl
          ++ "  return add_impl(a, b);" ++ nl ++ "}" ++ nl]
  /\ generate_wrapper_declarations functions = ["int add(int a, int b);"].
Proof. repeat split. Qed.

(** A structure typedef and an enumeration. *)
Example typedef_of_struct :
  TypeDefinition.__str__
    (TypeDefinition.__init__
       (Sample.node TYPEDEF_DECL "point_t" "point_t" [Sample.point_fields]))
  = "typedef struct point {" ++ nl ++ "  int x;" ++ nl ++ "  int y;" ++ nl
      ++ "} point_t".
Proof. reflexivity. Qed.

Example enum_values :
  combine_enum_decl
    (Sample.node ENUM_DECL "mode" "enum mode"
       [mkCursor ENUM_CONSTANT_DECL "OFF" "int" "" "int"
                 (Some Sample.header) 0 [];
        mkCursor ENUM_CONSTANT_DECL "LOW" "int" "" "int"
                 (Some Sample.header) (-1) []])
  = "enum mode {" ++ nl ++ "  OFF = 0," ++ nl ++ "  LOW = -1," ++ nl ++ "}".
Proof. reflexivity. Qed.

(** * Further properties *)

(** ** The formatter *)

Lemma rstrip_app_keep (a x : string) :
  rstrip x <> "" -> rstrip (a ++ x) = a ++ rstrip x.
Proof.
  intros Hx. induction a as [|c a IH]; [reflexivity|].
  simpl. rewrite IH. destruct (a ++ rstrip x) eqn:E; [|reflexivity].
  destruct a; simpl in E; [congruence | discriminate].
Qed.

Lemma leading_space_app (a b : string) :
  leading_space (a ++ b)
  = match a with
    | EmptyString => leading_space b
    | _ => leading_space a
    end.
Proof. now destruct a. Qed.

Lemma prefix_app (a b : string) : prefix a (a ++ b) = true.
Proof.
  induction a as [|c a IH]; [apply prefix_nil|].
  cbn [append prefix]. now destruct (ascii_dec c c).
Qed.

Lemma endswith_char_app (c : ascii) (a b : string) :
  b <> "" -> endswith (String c "") (a ++ b) = endswith (String c "") b.
Proof.
  intros Hb. induction a as [|x a IH]; [reflexivity|].
  cbn [append endswith]. rewrite IH.
  destruct (String.eqb_spec (String x (a ++ b)) (String c "")) as [E|]; auto.
  injection E as _ E. destruct a; simpl in E; congruence.
Qed.

Lemma prefix_space_star_app (c : ascii) (s : string) :
  prefix " *" (String c s) = false ->
  prefix " *" (String c (s ++ " *")) = false.
Proof.
  cbn [prefix]. destruct (ascii_dec " " c); [|reflexivity].
  destruct s as [|d s]; cbn [append prefix].
  - destruct (ascii_dec "*" " "); [discriminate | reflexivity].
  - destruct (ascii_dec "*" d); [|reflexivity]. now rewrite !prefix_nil.
Qed.

Lemma replace_pointer_suffix (b : string) :
  contains " *" b = false -> replace " *" "* " (b ++ " *") = b ++ "* ".
Proof.
  unfold contains, replace.
  destruct (rfind_nat " *" b) eqn:E; [discriminate|]. intros _.
  induction b as [|c b IH]; [reflexivity|].
  apply rfind_nat_none_tail in E as [E Hp].
  cbn [append replace_from]. rewrite (prefix_space_star_app _ _ Hp).
  now rewrite (IH E).
Qed.

(** X3: The spelling of a pointer, [T *], becomes [T*]: the star moves to the
    type, and a [struct] keyword in front stays. *)
Theorem formatAndCleanType_pointer (b : string) :
  contains " *" b = false -> leading_space b = false ->
  formatAndCleanType (b ++ " *") = b ++ "*".
Proof.
  intros Hc Hl. unfold formatAndCleanType.
  rewrite (replace_pointer_suffix b Hc).
  assert (Hs : strip (b ++ "* ") = b ++ "*").
  { unfold strip. rewrite lstrip_fixed.
    - now rewrite (rstrip_app_keep b "* ").
    - rewrite leading_space_app. now destruct b. }
  rewrite Hs, (endswith_app "*" b "*" eq_refl).
  now rewrite andb_false_r.
Qed.

Lemma formatAndCleanType_pointer_witness :
  formatAndCleanType ("struct xcb_connection_t" ++ " *")
  = "struct xcb_connection_t" ++ "*".
Proof.
  apply (formatAndCleanType_pointer "struct xcb_connection_t"); reflexivity.
Defined.

(** X4: A structure type that is not a pointer loses the [struct] keyword. *)
Theorem formatAndCleanType_struct (n : string) :
  contains " *" ("struct " ++ n) = false ->
  rstrip n = n -> n <> "" -> endswith "*" n = false ->
  formatAndCleanType ("struct " ++ n) = n.
Proof.
  intros Hc Hr Hn He. unfold formatAndCleanType.
  rewrite replace_absent by (discriminate || assumption).
  rewrite strip_fixed; [|reflexivity | now apply rstrip_app_fixed].
  unfold startswith. rewrite prefix_app.
  rewrite (endswith_char_app "*" "struct " n Hn), He.
  cbn [negb andb]. unfold slice_from, slice_index.
  cbn [Z.ltb Z.compare]. rewrite length_append.
  change (String.length "struct ") with 7%nat.
  replace (Nat.min (Z.to_nat 7) (7 + String.length n)) with 7%nat by lia.
  apply (drop_app_length "struct " n).
Qed.

Lemma formatAndCleanType_struct_witness :
  formatAndCleanType ("struct " ++ "xcb_setup_t") = "xcb_setup_t".
Proof.
  apply (formatAndCleanType_struct "xcb_setup_t");
    [reflexivity | reflexivity | discriminate | reflexivity].
Defined.

(** X5: Normalising never makes a spelling longer, and what it returns has no
    white space at its end. *)
Theorem formatAndCleanType_shrinks (t : string) :
  (String.length (formatAndCleanType t) <= String.length t)%nat
  /\ rstrip (formatAndCleanType t) = formatAndCleanType t.
Proof.
  split; [|apply formatAndCleanType_rstrip].
  unfold formatAndCleanType.
  set (r := replace " *" "* " t).
  assert (Hr : String.length r = String.length t).
  { unfold r, replace.
    rewrite length_replace_from; [lia | reflexivity | discriminate | lia]. }
  pose proof (length_rstrip (lstrip r)) as H1.
  pose proof (length_lstrip r) as H2. fold (strip r) in H1.
  destruct (_ && _).
  - unfold slice_from. rewrite length_drop. lia.
  - lia.
Qed.

(** ** Merging: a closing bracket without an opening one *)

Lemma rfind_nat_char_app_none (c x : ascii) (a : string) :
  c <> x -> rfind_nat (String c "") a = None ->
  rfind_nat (String c "") (a ++ String x "") = None.
Proof.
  intros Hcx. induction a as [|y a IH].
  - intros _. cbn. destruct (ascii_dec c x); [congruence | reflexivity].
  - intros H. apply rfind_nat_none_tail in H as [H Hp].
    cbn [append rfind_nat]. rewrite (IH H).
    cbn [prefix] in Hp |- *. destruct (ascii_dec c y); [|reflexivity].
    rewrite prefix_nil in Hp. discriminate.
Qed.

(** X2: When the type ends with a closing bracket and holds no opening
    bracket, [rfind] answers -1 and the slices take the last character
    only: the bracket alone moves behind the variable. *)
Theorem mergeTypeAndVariable_unmatched_bracket (a variable : string) :
  strip a = a -> endswith "]" a = false -> contains "[" a = false ->
  mergeTypeAndVariable (a ++ "]") variable = a ++ " " ++ variable ++ "]".
Proof.
  intros Hs He Hc.
  assert (Hl : leading_space a = false) by (rewrite <- Hs; apply strip_leading).
  assert (Hstrip : strip (a ++ "]") = a ++ "]").
  { apply strip_fixed.
    - rewrite leading_space_app. now destruct a.
    - now apply rstrip_app_fixed. }
  unfold mergeTypeAndVariable. rewrite Hstrip, length_append, Nat.add_1_r.
  cbn [strip_dimensions]. rewrite (endswith_app "]" a "]" eq_refl).
  unfold contains in Hc.
  destruct (rfind_nat "[" a) eqn:E; [discriminate|].
  unfold rfind, slice_to, slice_from.
  rewrite (rfind_nat_char_app_none "[" "]" a) by (discriminate || assumption).
  unfold slice_index. cbn [Z.ltb Z.compare]. rewrite length_append.
  change (String.length "]") with 1%nat.
  replace (Z.to_nat (Z.max 0 (-1 + Z.of_nat (String.length a + 1))))
    with (String.length a) by lia.
  rewrite take_app_length, drop_app_length.
  destruct (String.length a); cbn [strip_dimensions]; rewrite He;
    now rewrite Hs.
Qed.

Lemma mergeTypeAndVariable_unmatched_bracket_witness :
  mergeTypeAndVariable ("x" ++ "]") "v" = "x" ++ " " ++ "v" ++ "]".
Proof.
  apply (mergeTypeAndVariable_unmatched_bracket "x" "v"); reflexivity.
Defined.

(** ** Structures, unions and enumerations *)

Lemma fold_left_append_lines (line : Cursor -> string) (keep : Cursor -> bool)
      (children : list Cursor) (code : string) :
  fold_left (fun code child => if keep child then code ++ line child else code)
            children code
  = code ++ concat_all (map line (filter keep children)).
Proof.
  revert code. induction children as [|c children IH]; intros code.
  - simpl. now rewrite append_nil_r.
  - cbn [fold_left filter]. rewrite IH. destruct (keep c); [|reflexivity].
    cbn [map concat_all fold_right]. now rewrite append_assoc.
Qed.

(** X6: A structure or union is rendered with one line per field child, in
    the order of the children; children of other kinds leave no trace, and a
    declaration without fields is rendered with an empty body. *)
Theorem combine_struct_decl_fields (cursor : Cursor) :
  let body :=
    spelling cursor ++ " {" ++ nl
      ++ concat_all (map field_line
                         (filter (has_kind FIELD_DECL) (get_children cursor)))
      ++ "}" in
  combine_struct_decl cursor = "struct " ++ body
  /\ combine_union_decl cursor = "union " ++ body.
Proof.
  assert (H : combine_struct_or_union_decl cursor
              = spelling cursor ++ " {" ++ nl
                  ++ concat_all
                       (map field_line
                            (filter (has_kind FIELD_DECL)
                                    (get_children cursor)))
                  ++ "}").
  { unfold combine_struct_or_union_decl.
    rewrite (fold_left_ext _
               (fun code child =>
                  if has_kind FIELD_DECL child then code ++ field_line child
                  else code)).
    - rewrite fold_left_append_lines. now rewrite !append_assoc.
    - intros code child. unfold has_kind, field_line.
      destruct (CursorKind_eqb _ _); reflexivity. }
  unfold combine_struct_decl, combine_union_decl. now rewrite H.
Qed.

Lemma format_int_parse (n : Z) : parse_int (format_int n) = Some n.
Proof.
  unfold parse_int, format_int. rewrite NilZero.isi.
  - cbn [option_map]. now rewrite DecimalZ.of_to.
  - destruct n; simpl; try discriminate.
    intros [= H]. now apply Unsigned.to_uint_nonnil in H.
  - destruct n; simpl; try discriminate.
    intros [= H]. now apply Unsigned.to_uint_nonnil in H.
Qed.

(** X7: An enumeration is rendered with one line per enumerator child, in
    order, and the literal printed for an enumerator reads back as the
    value the parser gave it, negative values and zero included. *)
Theorem combine_enum_decl_enumerators (cursor : Cursor) :
  combine_enum_decl cursor
  = "enum " ++ spelling cursor ++ " {" ++ nl
      ++ concat_all (map enumerator_line
                         (filter (has_kind ENUM_CONSTANT_DECL)
                                 (get_children cursor)))
      ++ "}"
  /\ forall child,
       enumerator_line child
       = "  " ++ spelling child ++ " = " ++ format_int (enum_value child)
           ++ "," ++ nl
       /\ parse_int (format_int (enum_value child)) = Some (enum_value child).
Proof.
  split; [|intros child; split; [reflexivity | apply format_int_parse]].
  unfold combine_enum_decl.
  rewrite (fold_left_ext _
             (fun code child =>
                if has_kind ENUM_CONSTANT_DECL child
                then code ++ enumerator_line child else code)).
  - rewrite fold_left_append_lines. now rewrite !append_assoc.
  - intros code child. unfold has_kind, enumerator_line.
    destruct (CursorKind_eqb _ _); reflexivity.
Qed.

(** ** The declaration extractor *)

(** Induction over a cursor tree: the children first. *)
Lemma Cursor_tree_ind (P : Cursor -> Prop) :
  (forall c, (forall child, In child (get_children c) -> P child) -> P c) ->
  forall c, P c.
Proof.
  intros H. fix IH 1. intros [k s t r cs lf ev children]. apply H.
  cbn [get_children]. revert children. fix IHl 1. intros [|c children].
  - intros child [].
  - intros child [<-|Hin]; [apply IH | exact (IHl children child Hin)].
Qed.

Lemma walk_preorder_unfold (c : Cursor) :
  walk_preorder c = c :: flat_map walk_preorder (get_children c).
Proof. now destruct c. Qed.

(** The pre-order walk visits exactly the cursors of the tree. *)
Lemma In_walk_preorder (d c : Cursor) :
  In d (walk_preorder c) <-> descendant d c.
Proof.
  split.
  - revert d. induction c as [c IH] using Cursor_tree_ind. intros d.
    rewrite walk_preorder_unfold. intros [<-|Hin]; [constructor|].
    apply in_flat_map in Hin as (child & Hchild & Hd).
    eapply descendant_child; [exact Hchild | now apply IH].
  - induction 1 as [c|c child d Hchild _ IH];
      rewrite walk_preorder_unfold; [now left|].
    right. apply in_flat_map. now exists child.
Qed.

Lemma CursorKind_eqb_eq (a b : CursorKind) :
  CursorKind_eqb a b = true <-> a = b.
Proof. destruct a, b; simpl; split; congruence. Qed.

Lemma from_file_iff (file_name : string) (c : Cursor) :
  from_file file_name c = true <-> location_file c = Some file_name.
Proof.
  unfold from_file. destruct (location_file c) as [f|].
  - rewrite String.eqb_eq. split; congruence.
  - split; discriminate.
Qed.

(** X8: The collected functions are those of the function declarations found
    anywhere in the tree, at any depth, whose file is the header itself;
    declarations located in another file, or in no file, are left out. *)
Theorem collect_function_prototypes_exact (tu : Cursor) (f : Function.t) :
  In f (collect_function_prototypes tu)
  <-> exists c,
        descendant c tu
        /\ location_file c = Some (spelling tu)
        /\ kind c = FUNCTION_DECL
        /\ f = Function.__init__ c.
Proof.
  unfold collect_function_prototypes. rewrite in_map_iff. split.
  - intros (c & <- & Hc). apply filter_In in Hc as [Hw Hc].
    apply andb_prop in Hc as [Hf Hk]. exists c.
    rewrite <- In_walk_preorder, <- from_file_iff, <- CursorKind_eqb_eq. auto.
  - intros (c & Hd & Hf & Hk & ->). exists c. split; [reflexivity|].
    apply filter_In. split; [now apply In_walk_preorder|].
    apply andb_true_intro.
    now rewrite from_file_iff, CursorKind_eqb_eq.
Qed.

(** X9: The collected type definitions are those of the typedef declarations
    found anywhere in the tree whose file is the header itself. *)
Theorem collect_types_exact (tu : Cursor) (t : TypeDefinition.t) :
  In t (collect_types tu)
  <-> exists c,
        descendant c tu
        /\ location_file c = Some (spelling tu)
        /\ kind c = TYPEDEF_DECL
        /\ t = TypeDefinition.__init__ c.
Proof.
  unfold collect_types. rewrite in_map_iff. split.
  - intros (c & <- & Hc). apply filter_In in Hc as [Hw Hc].
    apply andb_prop in Hc as [Hf Hk]. exists c.
    rewrite <- In_walk_preorder, <- from_file_iff, <- CursorKind_eqb_eq. auto.
  - intros (c & Hd & Hf & Hk & ->). exists c. split; [reflexivity|].
    apply filter_In. split; [now apply In_walk_preorder|].
    apply andb_true_intro.
    now rewrite from_file_iff, CursorKind_eqb_eq.
Qed.

(** ** The macro constant scan *)

(** X10: The scan of a header for macro constants.  A header that is not
    there raises [IOError] and leaves the world untouched; a header that is
    there and decodes gives a list, recorded as one read, that holds exactly
    the trimmed lines of the file that begin with [#define XCB]: every
    collected line begins with [#define XCB] and carries no white space at
    either end, and every line of the file whose trimmed form begins so is
    collected.  An error of the scan is an [IOError] for a missing header or
    a [UnicodeDecodeError] for one that does not decode, never a
    [KeyError]. *)
Theorem collect_defines_lines (file_name : string) (w : World) :
  match files w file_name with
  | None => collect_defines file_name w = (Raise (IOError file_name), w)
  | Some text =>
      (is_ascii text = true ->
       exists defines,
         collect_defines file_name w
         = (Ok defines,
            {| files := files w;
               events := (events w ++ [EvRead file_name])%list |})
         /\ Forall (fun line => startswith "#define XCB" line = true
                                /\ strip line = line) defines
         /\ forall raw, In raw (readlines text) ->
                        startswith "#define XCB" (strip raw) = true ->
                        In (strip raw) defines)
      /\ forall e, fst (collect_defines file_name w) = Raise e ->
                   is_ascii text = false /\ e = UnicodeDecodeError file_name
  end.
Proof.
  unfold collect_defines, bind, open_text.
  destruct (files w file_name) as [text|]; [|reflexivity].
  destruct (is_ascii text); cbn [fst ret]; split.
  - intros _. eexists. split; [reflexivity|].
    rewrite collect_defines_text_trimmed. split.
    + apply Forall_forall.
      intros line Hin. apply in_map_iff in Hin as (l & <- & Hl).
      apply filter_In in Hl as [_ Hl]. split; [exact Hl | apply strip_idem].
    + intros raw Hin Hs. apply in_map. apply filter_In. now split.
  - discriminate.
  - discriminate.
  - intros e [= <-]. now split.
Qed.

Lemma collect_defines_lines_witness :
  files Sample.world Sample.header = Some Sample.text
  /\ is_ascii Sample.text = true
  /\ exists defines,
       fst (collect_defines Sample.header Sample.world) = Ok defines
       /\ Forall (fun line => startswith "#define XCB" line = true
                              /\ strip line = line) defines.
Proof.
  split; [reflexivity|]. split; [reflexivity|].
  destruct (proj1 (collect_defines_lines Sample.header Sample.world) eq_refl)
    as (defines & H & Hall & _).
  exists defines. split; [now rewrite H | exact Hall].
Defined.

(** ** The aggregator, for any context *)

Lemma extend_bucket (group variable : string) (lines : list string)
      (wrangler wrangler' : Wrangler) (g v : string) :
  extend group variable lines wrangler = Ok wrangler' ->
  bucket g v wrangler'
  = (bucket g v wrangler
       ++ (if String.eqb group g && String.eqb variable v then lines else []))%list.
Proof.
  intros H.
  destruct (String.eqb_spec group g) as [<-|Hg];
    [destruct (String.eqb_spec variable v) as [<-|Hv]|]; cbn [andb].
  - exact (extend_bucket_same _ _ _ _ _ H).
  - rewrite app_nil_r. apply (extend_bucket_other _ _ _ _ _ _ _ H). congruence.
  - rewrite app_nil_r. apply (extend_bucket_other _ _ _ _ _ _ _ H). congruence.
Qed.

Lemma dict_set_keys {V : Type} (key : string) (v : V) (d : dict V) :
  map fst (dict_set key v d) = map fst d.
Proof.
  induction d as [|[k x] d IH]; [reflexivity|].
  cbn [dict_set]. destruct (String.eqb k key); cbn [map fst]; congruence.
Qed.

Lemma wrangler_keys_cons (group : string) (variables : dict (list string))
      (wrangler : Wrangler) :
  wrangler_keys ((group, variables) :: wrangler)
  = (map (fun variable => (group, variable)) (map fst variables)
       ++ wrangler_keys wrangler)%list.
Proof.
  unfold wrangler_keys, wrangler_items. cbn [flat_map].
  rewrite map_app. f_equal. rewrite !map_map. apply map_ext.
  now intros [variable lines].
Qed.

Lemma dict_set_wrangler_keys (group : string)
      (variables variables' : dict (list string)) (wrangler : Wrangler) :
  dict_get group wrangler = Some variables ->
  map fst variables' = map fst variables ->
  wrangler_keys (dict_set group variables' wrangler) = wrangler_keys wrangler.
Proof.
  intros Hget Hkeys. induction wrangler as [|[g vars] wrangler IH];
    [discriminate|].
  cbn [dict_get dict_set] in *. destruct (String.eqb_spec g group) as [->|Hg].
  - injection Hget as ->. now rewrite !wrangler_keys_cons, Hkeys.
  - rewrite !wrangler_keys_cons. now rewrite (IH Hget).
Qed.

Lemma extend_keys (group variable : string) (lines : list string)
      (wrangler wrangler' : Wrangler) :
  extend group variable lines wrangler = Ok wrangler' ->
  wrangler_keys wrangler' = wrangler_keys wrangler.
Proof.
  unfold extend.
  destruct (dict_get group wrangler) as [variables|] eqn:Eg; [|discriminate].
  destruct (dict_get variable variables) as [old|] eqn:Ev; [|discriminate].
  intros [= <-]. apply (dict_set_wrangler_keys _ _ _ _ Eg), dict_set_keys.
Qed.

Lemma extend_succeeds (group variable : string) (lines : list string)
      (wrangler : Wrangler) :
  has_bucket group variable wrangler = true ->
  exists wrangler', extend group variable lines wrangler = Ok wrangler'.
Proof.
  unfold has_bucket, extend.
  destruct (dict_get group wrangler) as [variables|]; [|discriminate].
  destruct (dict_get variable variables); [eauto | discriminate].
Qed.

Lemma extend_fails (group variable : string) (lines : list string)
      (wrangler : Wrangler) :
  has_bucket group variable wrangler = false ->
  exists key, extend group variable lines wrangler = Raise (KeyError key).
Proof.
  unfold has_bucket, extend.
  destruct (dict_get group wrangler) as [variables|]; [|eauto].
  destruct (dict_get variable variables); [discriminate | eauto].
Qed.

(** An [extend] that succeeds creates no bucket and removes none. *)
Lemma extend_has_bucket (group variable : string) (lines : list string)
      (wrangler wrangler' : Wrangler) (g v : string) :
  extend group variable lines wrangler = Ok wrangler' ->
  has_bucket g v wrangler' = has_bucket g v wrangler.
Proof.
  unfold extend, has_bucket.
  destruct (dict_get group wrangler) as [variables|] eqn:Eg; [|discriminate].
  destruct (dict_get variable variables) as [old|] eqn:Ev; [|discriminate].
  intros [= <-].
  destruct (String.eqb_spec g group) as [->|Hg].
  - rewrite (dict_get_set_same _ _ _ _ Eg), Eg.
    destruct (String.eqb_spec v variable) as [->|Hv].
    + now rewrite (dict_get_set_same _ _ _ _ Ev), Ev.
    + now rewrite dict_get_set_other.
  - now rewrite dict_get_set_other.
Qed.

Lemma forallb_same {A : Type} (f g : A -> bool) (l : list A) :
  (forall x, f x = g x) -> forallb f l = forallb g l.
Proof.
  intros H. induction l as [|x l IH]; [reflexivity|].
  cbn [forallb]. now rewrite H, IH.
Qed.

Lemma extend_all_raise (output : list (string * string * list string))
      (e : exn) :
  fold_left (fun r '(g, v, lines) => bindR r (extend g v lines))
            output (Raise e)
  = Raise e.
Proof. induction output as [|[[g v] l] output IH]; [reflexivity | exact IH]. Qed.

Lemma extend_all_cons (g v : string) (lines : list string)
      (output : list (string * string * list string)) (wrangler : Wrangler) :
  extend_all ((g, v, lines) :: output) wrangler
  = bindR (extend g v lines wrangler) (extend_all output).
Proof.
  unfold extend_all. cbn [fold_left bindR].
  destruct (extend g v lines wrangler); [reflexivity | apply extend_all_raise].
Qed.

Lemma extend_all_buckets (output : list (string * string * list string))
      (wrangler wrangler' : Wrangler) :
  extend_all output wrangler = Ok wrangler' ->
  (forall g v, bucket g v wrangler'
               = (bucket g v wrangler ++ contribution g v output)%list)
  /\ wrangler_keys wrangler' = wrangler_keys wrangler.
Proof.
  revert wrangler. induction output as [|[[g0 v0] l] output IH];
    intros wrangler.
  - intros [= <-]. split; [intros; now rewrite app_nil_r | reflexivity].
  - rewrite extend_all_cons.
    destruct (extend g0 v0 l wrangler) as [w1|] eqn:E; [|discriminate].
    cbn [bindR]. intros H. destruct (IH _ H) as [Hb Hk]. split.
    + intros g v. rewrite Hb, (extend_bucket _ _ _ _ _ g v E).
      cbn [contribution flat_map]. now rewrite <- app_assoc.
    + rewrite Hk. exact (extend_keys _ _ _ _ _ E).
Qed.

Lemma extend_all_succeeds_iff (output : list (string * string * list string))
      (wrangler : Wrangler) :
  (exists wrangler', extend_all output wrangler = Ok wrangler')
  <-> forallb (fun '(g, v, _) => has_bucket g v wrangler) output = true.
Proof.
  revert wrangler. induction output as [|[[g0 v0] l] output IH];
    intros wrangler.
  - split; [reflexivity | intros _; now exists wrangler].
  - rewrite extend_all_cons. cbn [forallb].
    destruct (has_bucket g0 v0 wrangler) eqn:Hb.
    + destruct (extend_succeeds g0 v0 l wrangler Hb) as [w1 E].
      rewrite E. cbn [bindR andb]. rewrite IH.
      assert (Hsame : forallb (fun '(g, v, _) => has_bucket g v w1) output
                      = forallb (fun '(g, v, _) => has_bucket g v wrangler)
                                output).
      { apply forallb_same. intros [[g v] l'].
        exact (extend_has_bucket _ _ _ _ _ g v E). }
      now rewrite Hsame.
    + destruct (extend_fails g0 v0 l wrangler Hb) as [key E].
      rewrite E. cbn [bindR andb]. split; [intros [w' H] |]; discriminate.
Qed.

(** The three aggregator calls are the eight [extend] calls of
    [header_output], in that order. *)
Lemma add_header_extend_all (header : string) (functions : list Function.t)
      (types : list TypeDefinition.t) (definitions : list string)
      (wrangler : Wrangler) :
  add_header header functions types definitions wrangler
  = extend_all (header_output header functions types definitions) wrangler.
Proof.
  unfold add_header, add_functions_to_wrangler, add_types_to_wrangler,
    add_definitions_to_wrangler, header_output.
  rewrite typedef_lines_fold. cbn [nth app].
  repeat (rewrite extend_all_cons;
          match goal with
          | |- context [extend ?g ?v ?l ?w] =>
              destruct (extend g v l w); cbn [bindR]; [|reflexivity]
          end).
  reflexivity.
Qed.

Lemma extend_all_fails (output : list (string * string * list string))
      (wrangler : Wrangler) :
  forallb (fun '(g, v, _) => has_bucket g v wrangler) output = false ->
  exists key, extend_all output wrangler = Raise (KeyError key).
Proof.
  revert wrangler. induction output as [|[[g0 v0] l] output IH];
    intros wrangler; [discriminate|].
  rewrite extend_all_cons. cbn [forallb].
  destruct (has_bucket g0 v0 wrangler) eqn:Hb.
  - destruct (extend_succeeds g0 v0 l wrangler Hb) as [w1 E].
    rewrite E. cbn [bindR andb]. intros H. apply IH. rewrite <- H.
    apply forallb_same. intros [[g v] l'].
    exact (extend_has_bucket _ _ _ _ _ g v E).
  - intros _. destruct (extend_fails g0 v0 l wrangler Hb) as [key E].
    rewrite E. now exists key.
Qed.

(** X13: What one header adds: every bucket of the context keeps the lines it
    had and receives behind them the lines of this header that belong to
    it, the other buckets nothing; the pairs of the context stay the same,
    in the same order. *)
Theorem add_header_appends (header : string) (functions : list Function.t)
        (types : list TypeDefinition.t) (definitions : list string)
        (wrangler wrangler' : Wrangler) :
  add_header header functions types definitions wrangler = Ok wrangler' ->
  (forall g v,
      bucket g v wrangler'
      = (bucket g v wrangler
           ++ contribution g v
                (header_output header functions types definitions))%list)
  /\ wrangler_keys wrangler' = wrangler_keys wrangler.
Proof. rewrite add_header_extend_all. apply extend_all_buckets. Qed.

Lemma add_header_appends_witness :
  exists wrangler',
    add_header Sample.header [Function.__init__ Sample.add] []
               ["#define XCB_NONE 0"] initial_wrangler
    = Ok wrangler'
    /\ bucket "types" "definitions" wrangler' = ["/* xcb.h */"]
    /\ bucket "definitions" "all" wrangler' = ["#define XCB_NONE 0"]
    /\ wrangler_keys wrangler' = wrangler_keys initial_wrangler.
Proof.
  eexists. split; [reflexivity|].
  destruct (add_header_appends Sample.header [Function.__init__ Sample.add] []
              ["#define XCB_NONE 0"] initial_wrangler _ eq_refl) as [Hb Hk].
  split; [|split]; [rewrite Hb; reflexivity | rewrite Hb; reflexivity|].
  exact Hk.
Defined.

Lemma add_header_buckets_present (header : string)
      (functions : list Function.t) (types : list TypeDefinition.t)
      (definitions : list string) (wrangler : Wrangler) :
  let present :=
    forallb (fun '(g, v) => has_bucket g v wrangler)
            (wrangler_keys initial_wrangler) in
  (present = true ->
   exists wrangler',
     add_header header functions types definitions wrangler = Ok wrangler')
  /\ (present = false ->
      exists key,
        add_header header functions types definitions wrangler
        = Raise (KeyError key)).
Proof.
  intros present. rewrite add_header_extend_all.
  assert (H : forallb (fun '(g, v, _) => has_bucket g v wrangler)
                      (header_output header functions types definitions)
              = present).
  { unfold present, header_output. cbn. now rewrite !andb_true_r. }
  split; intros Hp.
  - apply extend_all_succeeds_iff. now rewrite H.
  - apply extend_all_fails. now rewrite H.
Qed.

(** X14: The aggregator calls for a header go through exactly when the context
    has the eight buckets they extend; otherwise they raise a key error. *)
Theorem add_header_needs_buckets (header : string)
        (functions : list Function.t) (types : list TypeDefinition.t)
        (definitions : list string) (wrangler : Wrangler) :
  let present :=
    forallb (fun '(g, v) => has_bucket g v wrangler)
            (wrangler_keys initial_wrangler) in
  (present = true ->
   exists wrangler',
     add_header header functions types definitions wrangler = Ok wrangler')
  /\ (present = false ->
      exists key,
        add_header header functions types definitions wrangler
        = Raise (KeyError key)).
Proof. apply add_header_buckets_present. Qed.

Lemma add_header_needs_buckets_witness :
  exists key,
    add_header Sample.header [] [] []
               [("functions", [("typedefs", [])])]
    = Raise (KeyError key).
Proof.
  apply (add_header_needs_buckets Sample.header [] [] []
           [("functions", [("typedefs", [])])]).
  reflexivity.
Defined.

(** X15: Two headers in a row: every bucket holds what it had, then the lines
    of the first header, then the lines of the second. *)
Theorem add_header_twice (header_a header_b : string)
        (functions_a functions_b : list Function.t)
        (types_a types_b : list TypeDefinition.t)
        (definitions_a definitions_b : list string)
        (wrangler wrangler1 wrangler2 : Wrangler) :
  add_header header_a functions_a types_a definitions_a wrangler
  = Ok wrangler1 ->
  add_header header_b functions_b types_b definitions_b wrangler1
  = Ok wrangler2 ->
  forall g v,
    bucket g v wrangler2
    = (bucket g v wrangler
         ++ contribution g v
              (header_output header_a functions_a types_a definitions_a)
         ++ contribution g v
              (header_output header_b functions_b types_b definitions_b))%list.
Proof.
  rewrite !add_header_extend_all. intros Ha Hb g v.
  destruct (extend_all_buckets _ _ _ Ha) as [H1 _].
  destruct (extend_all_buckets _ _ _ Hb) as [H2 _].
  now rewrite H2, H1, <- app_assoc.
Qed.

Lemma add_header_twice_witness :
  exists wrangler2,
    bindR (add_header Sample.header [Function.__init__ Sample.add] [] []
                      initial_wrangler)
          (add_header Sample.header2 [Function.__init__ Sample.flush_all]
                      [] [])
    = Ok wrangler2
    /\ bucket "functions" "definitions" wrangler2
       = ["/* xcb.h */"; "tadd add_impl;";
          "/* xproto.h */"; "txcb_flush_all xcb_flush_all_impl;"].
Proof.
  eexists. split; [reflexivity|].
  rewrite (add_header_twice
             Sample.header Sample.header2
             [Function.__init__ Sample.add]
             [Function.__init__ Sample.flush_all] [] [] [] []
             initial_wrangler _ _ eq_refl eq_refl).
  reflexivity.
Defined.

(** ** Substitution into a template *)

Lemma fold_replace_absent (items : list (string * string * list string))
      (data : string) :
  forallb (fun '(g, v, _) => negb (contains (template_variable g v) data))
          items = true ->
  fold_left replace_variable items data = data.
Proof.
  induction items as [|[[g v] lines] items IH]; [reflexivity|].
  cbn [forallb fold_left replace_variable]. intros H.
  apply andb_prop in H as [H1 H2]. apply negb_true_iff in H1.
  rewrite replace_absent by (discriminate || assumption). exact (IH H2).
Qed.

(** X16: A template in which no placeholder of the context occurs is left as it
    is, whatever the buckets hold. *)
Theorem replace_template_variables_no_placeholder
        (wrangler : Wrangler) (data : string) :
  forallb (fun '(g, v, _) => negb (contains (template_variable g v) data))
          (wrangler_items wrangler) = true ->
  replace_template_variables wrangler data = data.
Proof.
  intros H. rewrite replace_template_variables_items.
  now apply fold_replace_absent.
Qed.

Lemma replace_template_variables_no_placeholder_witness :
  replace_template_variables Sample.nested "/* %unknown_bucket% */"
  = "/* %unknown_bucket% */".
Proof.
  apply (replace_template_variables_no_placeholder
           Sample.nested "/* %unknown_bucket% */").
  reflexivity.
Defined.

Lemma percent_free_cons (c : ascii) (s : string) :
  percent_free (String c s) = true -> c <> "%"%char /\ percent_free s = true.
Proof.
  unfold percent_free, contains. intros H. apply negb_true_iff in H.
  destruct (rfind_nat "%" (String c s)) eqn:E; [discriminate|].
  apply rfind_nat_none_tail in E as [E Hp]. rewrite E. split; [|reflexivity].
  intros ->. cbn [prefix] in Hp. destruct (ascii_dec "%" "%"); [|congruence].
  now rewrite prefix_nil in Hp.
Qed.

Lemma percent_free_app (a b : string) :
  percent_free a = true -> percent_free b = true ->
  percent_free (a ++ b) = true.
Proof.
  intros Ha Hb. induction a as [|c a IH]; [exact Hb|].
  apply percent_free_cons in Ha as [Hc Ha]. specialize (IH Ha).
  unfold percent_free, contains in IH |- *. cbn [append rfind_nat].
  destruct (rfind_nat "%" (a ++ b)); [discriminate|].
  cbn [prefix]. destruct (ascii_dec "%" c); [congruence | reflexivity].
Qed.

(** A text that ends with a percent sign is no prefix of a text without
    percent sign. *)
Lemma prefix_percent_free (x p : string) :
  percent_free p = true -> prefix (x ++ "%") p = false.
Proof.
  revert x. induction p as [|c p IH]; intros x Hp.
  - now destruct x.
  - apply percent_free_cons in Hp as [Hc Hp].
    destruct x as [|y x]; cbn [append prefix].
    + destruct (ascii_dec "%" c); [congruence | reflexivity].
    + destruct (ascii_dec y c); [now apply IH | reflexivity].
Qed.

(** A placeholder does not occur in a text without percent sign. *)
Lemma placeholder_absent (x s : string) :
  percent_free s = true -> rfind_nat (String "%" x) s = None.
Proof.
  induction s as [|c s IH]; intros Hs; [reflexivity|].
  apply percent_free_cons in Hs as [Hc Hs].
  cbn [rfind_nat]. rewrite (IH Hs). cbn [prefix].
  destruct (ascii_dec "%" c); [congruence | reflexivity].
Qed.

Lemma placeholder_absent_contains (g v s : string) :
  percent_free s = true -> contains (template_variable g v) s = false.
Proof.
  intros Hs. unfold contains, template_variable. cbn [append].
  now rewrite placeholder_absent.
Qed.

Lemma replace_from_skip (old new a b : string) :
  replace_from old new (String.length a) (a ++ b) = replace_from old new 0 b.
Proof. induction a as [|c a IH]; [reflexivity | exact IH]. Qed.

(** Replacing a placeholder that stands between two texts without percent
    sign. *)
Lemma replace_placeholder_between (x new pre post : string) :
  percent_free pre = true -> percent_free post = true ->
  replace (String "%" x) new (pre ++ String "%" x ++ post)
  = pre ++ new ++ post.
Proof.
  intros Hpre Hpost. unfold replace. cbn [append].
  induction pre as [|c pre IH].
  - cbn [append replace_from].
    pose proof (prefix_app (String "%" x) post) as Hp. cbn [append] in Hp.
    rewrite Hp.
    replace (String.length (String "%" x) - 1)%nat with (String.length x)
      by (cbn [String.length]; lia).
    rewrite replace_from_skip, replace_from_absent;
      [reflexivity | now apply placeholder_absent].
  - apply percent_free_cons in Hpre as [Hc Hpre].
    cbn [append replace_from prefix].
    destruct (ascii_dec "%" c); [congruence|]. now rewrite (IH Hpre).
Qed.

(** Where a placeholder stands between two texts without percent sign,
    only that same placeholder occurs. *)
Lemma prefix_placeholder_same (b body post : string) :
  percent_free body = true -> percent_free post = true ->
  prefix (b ++ "%") (body ++ String "%" post) = true -> b = body.
Proof.
  intros Hbody Hpost. revert b.
  induction body as [|y body IH]; intros b.
  - destruct b as [|x b]; [reflexivity|].
    cbn [append prefix]. destruct (ascii_dec x "%"); [|discriminate].
    now rewrite (prefix_percent_free b post Hpost).
  - apply percent_free_cons in Hbody as [Hy Hbody].
    destruct b as [|x b]; cbn [append prefix].
    + destruct (ascii_dec "%" y); [congruence | discriminate].
    + destruct (ascii_dec x y) as [->|]; [|discriminate].
      intros H. now rewrite (IH Hbody b H).
Qed.

Lemma other_placeholder_absent (b body pre post : string) :
  percent_free pre = true -> percent_free body = true ->
  percent_free post = true -> b <> body ->
  rfind_nat (String "%" (b ++ "%"))
            (pre ++ String "%" (body ++ String "%" post))
  = None.
Proof.
  intros Hpre Hbody Hpost Hne.
  assert (Htail : rfind_nat (String "%" (b ++ "%")) (body ++ String "%" post)
                  = None).
  { clear Hne. induction body as [|y body IH].
    - cbn [append rfind_nat]. rewrite (placeholder_absent _ post Hpost).
      cbn [prefix]. destruct (ascii_dec "%" "%"); [|reflexivity].
      now rewrite (prefix_percent_free b post Hpost).
    - apply percent_free_cons in Hbody as [Hy Hbody].
      cbn [append rfind_nat]. rewrite (IH Hbody). cbn [prefix].
      destruct (ascii_dec "%" y); [congruence | reflexivity]. }
  induction pre as [|c pre IH].
  - cbn [append rfind_nat]. rewrite Htail. cbn [prefix].
    destruct (ascii_dec "%" "%"); [|reflexivity].
    destruct (prefix (b ++ "%") (body ++ String "%" post)) eqn:Hp;
      [|reflexivity].
    apply prefix_placeholder_same in Hp; congruence.
  - apply percent_free_cons in Hpre as [Hc Hpre].
    cbn [append rfind_nat]. rewrite (IH Hpre). cbn [prefix].
    destruct (ascii_dec "%" c); [congruence | reflexivity].
Qed.

Lemma template_variable_shape (g v : string) :
  template_variable g v = String "%" ((g ++ "_" ++ v) ++ "%").
Proof. unfold template_variable. cbn [append]. now rewrite !append_assoc. Qed.

(** X17: A template that holds one placeholder of the context, between texts
    without percent sign, becomes the same texts around the joined lines of
    that bucket: nothing else of the template changes, provided the lines
    and the names of the pair hold no percent sign either. *)
Theorem replace_template_variables_single
        (wrangler : Wrangler)
        (before after : list (string * string * list string))
        (g v : string) (lines : list string) (pre post : string) :
  wrangler_items wrangler = (before ++ (g, v, lines) :: after)%list ->
  forallb (fun '(g', v', _) =>
             negb (String.eqb (template_variable g' v') (template_variable g v)))
          before = true ->
  percent_free g = true -> percent_free v = true ->
  percent_free pre = true -> percent_free post = true ->
  percent_free (join nl lines) = true ->
  replace_template_variables wrangler (pre ++ template_variable g v ++ post)
  = pre ++ join nl lines ++ post.
Proof.
  intros Hitems Hbefore Hg Hv Hpre Hpost Hlines.
  rewrite replace_template_variables_items, Hitems, fold_left_app.
  assert (Hbody : percent_free (g ++ "_" ++ v) = true).
  { apply percent_free_app; [exact Hg|].
    now apply (percent_free_app "_" v). }
  rewrite (fold_replace_absent before).
  - cbn [fold_left replace_variable].
    rewrite (template_variable_shape g v).
    rewrite replace_placeholder_between by assumption.
    apply fold_replace_absent. apply forallb_forall.
    intros [[g' v'] l'] _. apply negb_true_iff.
    apply placeholder_absent_contains.
    now repeat apply percent_free_app.
  - rewrite forallb_forall in Hbefore |- *.
    intros [[g' v'] l'] Hin. specialize (Hbefore _ Hin).
    cbv beta iota zeta in Hbefore.
    apply negb_true_iff in Hbefore. apply String.eqb_neq in Hbefore.
    apply negb_true_iff.
    unfold contains.
    rewrite (template_variable_shape g' v'), (template_variable_shape g v).
    rewrite !template_variable_shape in Hbefore.
    replace (String "%" ((g ++ "_" ++ v) ++ "%") ++ post)
      with (String "%" ((g ++ "_" ++ v) ++ String "%" post))
      by (cbn [append]; now rewrite !append_assoc).
    rewrite other_placeholder_absent;
      [reflexivity | assumption | assumption | assumption |].
    intros E. apply Hbefore. now rewrite E.
Qed.

Lemma replace_template_variables_single_witness :
  replace_template_variables
    [("functions", [("typedefs", ["typedef int (*tadd) (int a,int b);"]);
                    ("definitions", ["/* xcb.h */"; "tadd add_impl;"])]);
     ("definitions", [("all", ["#define XCB_NONE 0"])])]
    ("/* generated */ " ++ template_variable "functions" "definitions"
       ++ " /* end */")
  = "/* generated */ " ++ join nl ["/* xcb.h */"; "tadd add_impl;"]
      ++ " /* end */".
Proof.
  apply (replace_template_variables_single
           _ [("functions", "typedefs", ["typedef int (*tadd) (int a,int b);"])]
           [("definitions", "all", ["#define XCB_NONE 0"])]
           "functions" "definitions" ["/* xcb.h */"; "tadd add_impl;"]
           "/* generated */ " " /* end */");
    reflexivity.
Defined.

(** ** A run: what is written, and when it fails *)

Lemma extend_all_has_bucket (output : list (string * string * list string))
      (wrangler wrangler' : Wrangler) (g v : string) :
  extend_all output wrangler = Ok wrangler' ->
  has_bucket g v wrangler' = has_bucket g v wrangler.
Proof.
  revert wrangler. induction output as [|[[g0 v0] l] output IH];
    intros wrangler.
  - now intros [= <-].
  - rewrite extend_all_cons.
    destruct (extend g0 v0 l wrangler) as [w1|] eqn:E; [|discriminate].
    cbn [bindR]. intros H. rewrite (IH _ H).
    exact (extend_has_bucket _ _ _ _ _ g v E).
Qed.

Section RunFacts.

Variable index_parse : string -> option Cursor.
Variable script_dir : string.

(** The two output files are different files. *)
Lemma outputs_differ : output_h script_dir <> output_c script_dir.
Proof.
  destruct (output_h_tail script_dir) as [yh ->].
  destruct (output_c_tail script_dir) as [yc ->].
  intros H. apply append_same_length_tail in H; [discriminate | reflexivity].
Qed.

(** A completed substitution leaves in each output file its template with
    the context substituted. *)
Lemma write_wrangler_to_files_result (wrangler : Wrangler) (w w' : World)
      (u : unit) :
  write_wrangler_to_files script_dir wrangler w = (Ok u, w') ->
  exists text_h text_c,
    files w (template_h script_dir) = Some text_h
    /\ files w (template_c script_dir) = Some text_c
    /\ is_ascii text_h = true
    /\ is_ascii text_c = true
    /\ files w' (output_h script_dir)
       = Some (replace_template_variables wrangler
                 (translate_newlines text_h))
    /\ files w' (output_c script_dir)
       = Some (replace_template_variables wrangler
                 (translate_newlines text_c)).
Proof.
  destruct (templates_not_outputs script_dir) as [_ Hc].
  pose proof outputs_differ as Hd.
  unfold write_wrangler_to_files, write_wrangler_to_file, read_file, bind,
    open_text, write_file, ret.
  destruct (files w (template_h script_dir)) as [text_h|];
    cbv beta iota; [|discriminate].
  destruct (is_ascii text_h) eqn:Ah; cbv beta iota; [|discriminate].
  cbn [files events].
  destruct (String.eqb_spec (template_c script_dir) (output_h script_dir))
    as [E|_]; [exfalso; apply Hc; left; now rewrite E|].
  destruct (files w (template_c script_dir)) as [text_c|];
    cbv beta iota; [|discriminate].
  destruct (is_ascii text_c) eqn:Ac; cbv beta iota; [|discriminate].
  intros [= _ <-]. exists text_h, text_c. cbn [files].
  rewrite !String.eqb_refl.
  destruct (String.eqb_spec (output_h script_dir) (output_c script_dir));
    [congruence | repeat split; auto].
Qed.

(** A pass of the loop, written with the three aggregator calls as one. *)
Lemma process_header_add_header (header : string) (wrangler : Wrangler)
      (w : World) :
  process_header index_parse script_dir header wrangler w
  = bind (parse_file index_parse header)
         (fun parsed =>
            let '(functions, types, definitions) := parsed in
            bind (lift (add_header header functions types definitions
                                   wrangler))
                 (fun wrangler' =>
                    bind (write_wrangler_to_files script_dir wrangler')
                         (fun _ => ret wrangler')))
         w.
Proof.
  unfold process_header, add_header, bind, lift, bindR.
  destruct (parse_file index_parse header w) as [[[[fs ts] ds]|e] w1];
    [|reflexivity].
  destruct (add_functions_to_wrangler header wrangler fs); [|reflexivity].
  destruct (add_types_to_wrangler header _ ts); [|reflexivity].
  destruct (add_definitions_to_wrangler header _ ds); reflexivity.
Qed.

Lemma parse_file_files (header : string) (w w' : World)
      (r : Result (list Function.t * list TypeDefinition.t * list string)) :
  parse_file index_parse header w = (r, w') ->
  files w' = files w
  /\ match r with
     | Ok _ => True
     | Raise e => e = TranslationUnitLoadError header
                  \/ e = IOError header
                  \/ e = UnicodeDecodeError header
     end.
Proof.
  unfold parse_file, collect_defines, parse_header, open_text, bind, ret.
  destruct (index_parse header); cbn [files events].
  - destruct (files w header) as [text|];
      [destruct (is_ascii text)|]; intros [= <- <-]; cbn [files]; auto.
  - intros [= <- <-]. auto.
Qed.

(** What a completed pass leaves: the context it returns has the buckets
    of the context it was given, and both output files hold their template
    with the returned context substituted. *)
Lemma process_header_result (header : string) (wrangler wrangler' : Wrangler)
      (w w' : World) :
  process_header index_parse script_dir header wrangler w
  = (Ok wrangler', w') ->
  (forall g v, has_bucket g v wrangler' = has_bucket g v wrangler)
  /\ exists text_h text_c,
       files w (template_h script_dir) = Some text_h
       /\ files w (template_c script_dir) = Some text_c
       /\ is_ascii text_h = true
       /\ is_ascii text_c = true
       /\ files w' (output_h script_dir)
          = Some (replace_template_variables wrangler'
                    (translate_newlines text_h))
       /\ files w' (output_c script_dir)
          = Some (replace_template_variables wrangler'
                    (translate_newlines text_c)).
Proof.
  rewrite process_header_add_header. unfold bind at 1.
  destruct (parse_file index_parse header w) as [[[[fs ts] ds]|e] w1] eqn:Ep;
    [|discriminate].
  apply parse_file_files in Ep as [Hfiles _].
  unfold bind at 1, lift.
  destruct (add_header header fs ts ds wrangler) as [wr1|] eqn:Ea;
    [|discriminate].
  unfold bind at 1.
  destruct (write_wrangler_to_files script_dir wr1 w1) as [[u|e] w2] eqn:Ew;
    [|discriminate].
  intros [= <- <-]. split.
  - intros g v. rewrite add_header_extend_all in Ea.
    exact (extend_all_has_bucket _ _ _ g v Ea).
  - apply write_wrangler_to_files_result in Ew. now rewrite Hfiles in Ew.
Qed.

(** A pass that raises, from a context with the eight buckets, raises for
    the parser or for a file. *)
Lemma process_header_raise (header : string) (wrangler : Wrangler)
      (w w' : World) (e : exn) :
  forallb (fun '(g, v) => has_bucket g v wrangler)
          (wrangler_keys initial_wrangler) = true ->
  process_header index_parse script_dir header wrangler w = (Raise e, w') ->
  forall key, e <> KeyError key.
Proof.
  intros Hb. rewrite process_header_add_header. unfold bind at 1.
  destruct (parse_file index_parse header w) as [[[[fs ts] ds]|e0] w1] eqn:Ep.
  - unfold bind at 1, lift.
    destruct (proj1 (add_header_buckets_present header fs ts ds wrangler) Hb)
      as [wr1 Ea].
    rewrite Ea. unfold bind at 1.
    destruct (write_wrangler_to_files script_dir wr1 w1) as [[u|e1] w2] eqn:Ew;
      [discriminate|].
    intros [= <- <-] key ->.
    revert Ew. unfold write_wrangler_to_files, write_wrangler_to_file,
      read_file, bind, open_text, write_file, ret.
    destruct (files w1 (template_h script_dir)) as [text_h|];
      cbv beta iota; [|discriminate].
    destruct (is_ascii text_h); cbv beta iota; [|discriminate].
    cbn [files events].
    destruct (if String.eqb (template_c script_dir) (output_h script_dir)
              then _ else _) as [text_c|]; cbv beta iota; [|discriminate].
    destruct (is_ascii text_c); cbv beta iota; discriminate.
  - apply parse_file_files in Ep as [_ [->|[->| ->]]];
      intros [= <- <-] key; discriminate.
Qed.

End RunFacts.

(** ** The main block *)

Section MainFacts.

Variable index_parse : string -> option Cursor.
Variable script_dir : string.

Lemma for_headers_result (headers : list string) :
  forall (wrangler wrangler' : Wrangler) (w w' : World),
    headers <> [] ->
    for_headers index_parse script_dir headers wrangler w
    = (Ok wrangler', w') ->
    exists text_h text_c,
      files w (template_h script_dir) = Some text_h
      /\ files w (template_c script_dir) = Some text_c
      /\ is_ascii text_h = true
      /\ is_ascii text_c = true
      /\ files w' (output_h script_dir)
         = Some (replace_template_variables wrangler'
                   (translate_newlines text_h))
      /\ files w' (output_c script_dir)
         = Some (replace_template_variables wrangler'
                   (translate_newlines text_c)).
Proof.
  induction headers as [|header headers IH];
    intros wrangler wrangler' w w' Hne; [congruence|].
  cbn [for_headers]. unfold bind.
  destruct (process_header index_parse script_dir header wrangler w)
    as [[wr1|e] w1] eqn:Ep; [|discriminate].
  destruct headers as [|header2 headers].
  - intros [= <- <-].
    exact (proj2 (process_header_result _ _ _ _ _ _ _ Ep)).
  - intros H. apply IH in H; [|discriminate].
    destruct H as (text_h & text_c & Hh & Hc & Ho).
    destruct (templates_not_outputs script_dir) as [Nh Nc].
    rewrite (writes_only_process_header index_parse script_dir header wrangler
               _ _ _ _ Ep Nh) in Hh.
    rewrite (writes_only_process_header index_parse script_dir header wrangler
               _ _ _ _ Ep Nc) in Hc.
    now exists text_h, text_c.
Qed.

Lemma for_headers_raise (headers : list string) :
  forall (wrangler : Wrangler) (w w' : World) (e : exn),
    forallb (fun '(g, v) => has_bucket g v wrangler)
            (wrangler_keys initial_wrangler) = true ->
    for_headers index_parse script_dir headers wrangler w = (Raise e, w') ->
    forall key, e <> KeyError key.
Proof.
  induction headers as [|header headers IH]; intros wrangler w w' e Hb;
    [discriminate|].
  cbn [for_headers]. unfold bind.
  destruct (process_header index_parse script_dir header wrangler w)
    as [[wr1|e1] w1] eqn:Ep.
  - apply IH. rewrite <- Hb. apply forallb_same. intros [g v].
    exact (proj1 (process_header_result _ _ _ _ _ _ _ Ep) g v).
  - intros [= <- <-]. exact (process_header_raise _ _ _ _ _ _ _ Hb Ep).
Qed.

(** X19: After a completed run both templates were there when the run
    began, and each output file whose template is ASCII text holds that
    template, as it was when the run began and as a text-mode read gives it
    (each CR LF and each CR alone read as one LF), with the context the
    run returns substituted: the context filled from all the headers. *)
Theorem main_outputs_are_substitution (argv : list string)
        (wrangler : Wrangler) (w w' : World) :
  main index_parse script_dir argv w = (Ok wrangler, w') ->
  exists text_h text_c,
    files w (template_h script_dir) = Some text_h
    /\ files w (template_c script_dir) = Some text_c
    /\ (is_ascii text_h = true ->
        files w' (output_h script_dir)
        = Some (replace_template_variables wrangler
                  (translate_newlines text_h)))
    /\ (is_ascii text_c = true ->
        files w' (output_c script_dir)
        = Some (replace_template_variables wrangler
                  (translate_newlines text_c))).
Proof.
  intros H. apply for_headers_result in H; [|apply headers_of_argv_nonempty].
  destruct H as (text_h & text_c & Hh & Hc & _ & _ & Hoh & Hoc).
  exists text_h, text_c. auto.
Qed.

(** X21: A run never fails for a missing bucket: the context it starts from
    has the eight buckets and no pass removes one. *)
Theorem main_never_key_error (argv : list string) (w w' : World) (e : exn) :
  main index_parse script_dir argv w = (Raise e, w') ->
  forall key, e <> KeyError key.
Proof. apply for_headers_raise. reflexivity. Qed.

(** X20: Whether it completes or raises, a run changes no file but the two
    output files; the headers and both templates stay as they were. *)
Theorem main_writes_only_outputs (argv : list string) (w w' : World)
        (r : Result Wrangler) :
  main index_parse script_dir argv w = (r, w') ->
  (forall p, p <> output_h script_dir -> p <> output_c script_dir ->
             files w' p = files w p)
  /\ files w' (template_h script_dir) = files w (template_h script_dir)
  /\ files w' (template_c script_dir) = files w (template_c script_dir).
Proof.
  intros H.
  pose proof (writes_only_for_headers index_parse script_dir
                (headers_of_argv argv) initial_wrangler) as Hw.
  destruct (templates_not_outputs script_dir) as [Nh Nc].
  split; [|split].
  - intros p Hh Hc. apply (Hw _ _ _ p H). intros [E|[E|[]]]; congruence.
  - exact (Hw _ _ _ _ H Nh).
  - exact (Hw _ _ _ _ H Nc).
Qed.

(** X22: When the parser fails on the second header, the run stops there, and
    the output files, written at the end of the first pass, hold the
    substitution of the first header's context alone: each output file
    whose template is ASCII text holds that template as a text-mode read
    gives it (CR LF and CR alone read as LF) with that context
    substituted. *)
Theorem later_header_failure_keeps_outputs
        (header1 header2 : string) (rest : list string)
        (wrangler wrangler1 : Wrangler) (w w1 : World) :
  process_header index_parse script_dir header1 wrangler w
  = (Ok wrangler1, w1) ->
  index_parse header2 = None ->
  for_headers index_parse script_dir (header1 :: header2 :: rest) wrangler w
  = (Raise (TranslationUnitLoadError header2), w1)
  /\ exists text_h text_c,
       files w (template_h script_dir) = Some text_h
       /\ files w (template_c script_dir) = Some text_c
       /\ (is_ascii text_h = true ->
           files w1 (output_h script_dir)
           = Some (replace_template_variables wrangler1
                     (translate_newlines text_h)))
       /\ (is_ascii text_c = true ->
           files w1 (output_c script_dir)
           = Some (replace_template_variables wrangler1
                     (translate_newlines text_c))).
Proof.
  intros Ep Hnone. split.
  - cbn [for_headers]. unfold bind at 1. rewrite Ep.
    unfold bind at 1, process_header, parse_file, bind, parse_header.
    now rewrite Hnone.
  - destruct (proj2 (process_header_result _ _ _ _ _ _ _ Ep))
      as (text_h & text_c & Hh & Hc & _ & _ & Hoh & Hoc).
    exists text_h, text_c. auto.
Qed.

(** X18: A missing template stops the substitution: without the first template
    nothing is written and the world stays as it was; without the second,
    the first output file has been written already, from the first template
    as a text-mode read gives it, and stays, and no other file is
    touched. *)
Theorem write_wrangler_to_files_missing_template (wrangler : Wrangler)
        (w : World) :
  (files w (template_h script_dir) = None ->
   write_wrangler_to_files script_dir wrangler w
   = (Raise (IOError (template_h script_dir)), w))
  /\ (forall text_h,
         files w (template_h script_dir) = Some text_h ->
         is_ascii text_h = true ->
         files w (template_c script_dir) = None ->
         exists w',
           write_wrangler_to_files script_dir wrangler w
           = (Raise (IOError (template_c script_dir)), w')
           /\ files w' (output_h script_dir)
              = Some (replace_template_variables wrangler
                        (translate_newlines text_h))
           /\ forall p, p <> output_h script_dir -> files w' p = files w p).
Proof.
  destruct (templates_not_outputs script_dir) as [_ Hc].
  unfold write_wrangler_to_files, write_wrangler_to_file, read_file, bind,
    open_text, write_file, ret.
  split.
  - now intros ->.
  - intros text_h -> -> Hnone. cbn [files events].
    destruct (String.eqb_spec (template_c script_dir) (output_h script_dir))
      as [E|_]; [exfalso; apply Hc; left; now rewrite E|].
    rewrite Hnone. eexists. split; [reflexivity|]. cbn [files].
    rewrite String.eqb_refl. split; [reflexivity|].
    intros p Hp. now destruct (String.eqb_spec p (output_h script_dir)).
Qed.

End MainFacts.

Lemma write_wrangler_to_files_missing_template_witness :
  exists w',
    write_wrangler_to_files
      Sample.script_dir initial_wrangler
      {| files := Sample.files_of
                    [("/opt/xcbew/auto/xcbew.template.h", "/* empty */")];
         events := [] |}
    = (Raise (IOError "/opt/xcbew/auto/xcbew.template.c"), w')
    /\ files w' "/opt/xcbew/auto/../include/xcbew.h" = Some "/* empty */".
Proof.
  destruct (proj2 (write_wrangler_to_files_missing_template
                     Sample.script_dir initial_wrangler
                     {| files := Sample.files_of
                                   [("/opt/xcbew/auto/xcbew.template.h",
                                     "/* empty */")];
                        events := [] |})
                  "/* empty */" eq_refl eq_refl eq_refl)
    as (w' & Hrun & Hout & _).
  exists w'. split; [exact Hrun | exact Hout].
Defined.

Lemma main_outputs_are_substitution_witness :
  files (snd (main Sample.index_parse Sample.script_dir ["auto.py"]
                   Sample.world))
        "/opt/xcbew/auto/../source/xcbew.c"
  = Some ("/* xcb.h */" ++ nl ++ "tadd add_impl;" ++ nl
            ++ "/* xproto.h */" ++ nl
            ++ "txcb_flush_all xcb_flush_all_impl;").
Proof.
  destruct (main_outputs_are_substitution
              Sample.index_parse Sample.script_dir ["auto.py"]
              (final_wrangler (main Sample.index_parse Sample.script_dir
                                    ["auto.py"] Sample.world))
              Sample.world
              (snd (main Sample.index_parse Sample.script_dir ["auto.py"]
                         Sample.world)))
    as (text_h & text_c & Hh & Hc & Hoh & Hoc).
  - vm_compute. reflexivity.
  - vm_compute in Hc. injection Hc as <-.
    refine (eq_trans (Hoc eq_refl) _). vm_compute. reflexivity.
Defined.

Lemma main_never_key_error_witness :
  fst (main Sample.index_parse Sample.script_dir ["auto.py"; "stdio.h"]
            Sample.world)
  = Raise (TranslationUnitLoadError "stdio.h")
  /\ TranslationUnitLoadError "stdio.h" <> KeyError "functions".
Proof.
  split; [reflexivity|].
  apply (main_never_key_error Sample.index_parse Sample.script_dir
           ["auto.py"; "stdio.h"] Sample.world Sample.world).
  reflexivity.
Defined.

Lemma main_writes_only_outputs_witness :
  files (snd (main Sample.index_parse Sample.script_dir ["auto.py"]
                   Sample.world_stale))
        Sample.header
  = Some Sample.text.
Proof.
  destruct (main_writes_only_outputs
              Sample.index_parse Sample.script_dir ["auto.py"]
              Sample.world_stale _ _ (surjective_pairing _)) as [H _].
  refine (eq_trans (H Sample.header _ _) _);
    [intros E; vm_compute in E; discriminate E
    |intros E; vm_compute in E; discriminate E
    |reflexivity].
Defined.

(** The default run with a parser that knows the first header only. *)
Lemma later_header_failure_keeps_outputs_witness :
  exists w1,
    main Sample.index_parse_first Sample.script_dir ["auto.py"] Sample.world
    = (Raise (TranslationUnitLoadError Sample.header2), w1)
    /\ files w1 "/opt/xcbew/auto/../include/xcbew.h"
       = Some "int add(int a, int b);".
Proof.
  destruct (later_header_failure_keeps_outputs
              Sample.index_parse_first Sample.script_dir
              Sample.header Sample.header2 []
              initial_wrangler _ Sample.world _ eq_refl eq_refl)
    as [Hrun _].
  eexists. split; [exact Hrun | reflexivity].
Defined.

Lemma main_rerun_witness :
  exists w'',
    main Sample.index_parse Sample.script_dir ["auto.py"]
         (snd (main Sample.index_parse Sample.script_dir ["auto.py"]
                    Sample.world))
    = (Ok (final_wrangler (main Sample.index_parse Sample.script_dir
                                ["auto.py"] Sample.world)), w'')
    /\ files w'' (output_h Sample.script_dir)
       = files (snd (main Sample.index_parse Sample.script_dir ["auto.py"]
                          Sample.world))
               (output_h Sample.script_dir)
    /\ files w'' (output_c Sample.script_dir)
       = files (snd (main Sample.index_parse Sample.script_dir ["auto.py"]
                          Sample.world))
               (output_c Sample.script_dir).
Proof.
  apply (main_rerun Sample.index_parse Sample.script_dir ["auto.py"]
           Sample.world).
  - intros h Hh. simpl in Hh.
    destruct Hh as [<-|[<-|[]]]; intros [E|[E|[]]]; discriminate E.
  - vm_compute. reflexivity.
Defined.

(** ** Base names and markers *)

Lemma rfind_nat_slash_app (a rest : string) :
  contains "/" rest = false ->
  rfind_nat "/" (a ++ String "/" rest) = Some (String.length a).
Proof.
  unfold contains. intros H.
  destruct (rfind_nat "/" rest) eqn:E; [discriminate|].
  induction a as [|c a IH].
  - cbn [append rfind_nat]. rewrite E. simpl. now destruct rest.
  - cbn [append rfind_nat]. now rewrite IH.
Qed.

(** X12: The marker of a header names its file without the directories: what
    follows the last slash of the path, the whole path when it has none. *)
Theorem section_marker_drops_directories (dir name : string) :
  contains "/" name = false ->
  section_marker (dir ++ "/" ++ name) = "/* " ++ name ++ " */"
  /\ section_marker name = "/* " ++ name ++ " */".
Proof.
  intros Hn. unfold section_marker, basename, rfind. split.
  - cbn [append]. rewrite (rfind_nat_slash_app dir name Hn).
    unfold slice_from, slice_index.
    destruct (Z.of_nat (String.length dir) + 1 <? 0)%Z eqn:Hi;
      [apply Z.ltb_lt in Hi; lia|].
    replace (Nat.min (Z.to_nat (Z.of_nat (String.length dir) + 1))
                     (String.length (dir ++ String "/" name)))
      with (String.length (dir ++ "/"))
      by (rewrite !length_append; cbn [String.length]; lia).
    replace (dir ++ String "/" name) with ((dir ++ "/") ++ name)
      by (now rewrite append_assoc).
    now rewrite drop_app_length.
  - unfold contains in Hn.
    destruct (rfind_nat "/" name); [discriminate|]. reflexivity.
Qed.

Lemma section_marker_drops_directories_witness :
  section_marker ("/usr/include/xcb" ++ "/" ++ "xproto.h")
  = "/* " ++ "xproto.h" ++ " */".
Proof.
  apply (section_marker_drops_directories "/usr/include/xcb" "xproto.h").
  reflexivity.
Defined.

(** ** Wrappers and prototypes *)

(** X11: For the function at each position of the list, the wrapper definition
    at that position begins with the text of the prototype at that
    position, the semicolon replaced by a body that passes the argument
    names, in order, to the resolved pointer and returns its result. *)
Theorem wrappers_follow_prototypes (functions : list Function.t)
        (i : nat) (function : Function.t) :
  nth_error functions i = Some function ->
  exists signature,
    nth_error (generate_wrapper_declarations functions) i
    = Some (signature ++ ";")
    /\ nth_error (generate_extern_function_wrappers functions) i
       = Some (signature ++ " {" ++ nl
                 ++ "  return " ++ Function.name function ++ "_impl("
                 ++ join ", " (argument_names function) ++ ");" ++ nl
                 ++ "}" ++ nl).
Proof.
  intros H.
  exists (formatAndCleanType (Function.return_type function)
            ++ " " ++ Function.name function
            ++ "(" ++ join ", " (arguments_str function) ++ ")").
  unfold generate_wrapper_declarations, generate_extern_function_wrappers.
  rewrite !nth_error_map, H. cbn [option_map].
  split; f_equal; now rewrite !append_assoc.
Qed.

Lemma wrappers_follow_prototypes_witness :
  exists signature,
    nth_error (generate_wrapper_declarations [Function.__init__ Sample.add]) 0
    = Some (signature ++ ";")
    /\ nth_error (generate_extern_function_wrappers
                    [Function.__init__ Sample.add]) 0
       = Some (signature ++ " {" ++ nl
                 ++ "  return " ++ "add" ++ "_impl("
                 ++ join ", " ["a"; "b"] ++ ");" ++ nl
                 ++ "}" ++ nl).
Proof.
  apply (wrappers_follow_prototypes [Function.__init__ Sample.add] 0
           (Function.__init__ Sample.add)).
  reflexivity.
Defined.
